(** * Multi-sample voice enrollment: [audio/embedding_utils.py]

    A shallow embedding of the analyzer ([get_audio_duration],
    [estimate_snr], [analyze_audio_samples]), the embedding fuser
    ([combine_speaker_embeddings]) and the prompt assembler
    ([create_combined_voice_clone_prompt]).

    Numbers.  Python floats, numpy arrays and torch tensors are modelled
    over the real numbers [R]: every arithmetic operation is the exact one,
    there is no rounding, no overflow and no NaN.  Control flow (guards,
    comparisons, exceptions) is the source's.  Results that the source only
    reaches up to rounding (a weight sum of 1, a unit norm) are therefore
    stated exactly here.

    Exceptions.  Code that can raise returns a [result]; [try]/[except]
    is [try_except].  Python's float division raises [ZeroDivisionError]
    on a zero divisor ([py_truediv]); numpy and torch division does not.

    Environment.  The audio decoder [sf.read] and the synthesis model's
    [create_voice_clone_prompt] are parameters of the functions that call
    them.  The [print] calls of the fuser are not modelled. *)

From Stdlib Require Import Reals Lra Lia ZArith String Ascii Bool Arith List.
Import ListNotations.
Open Scope R_scope.

(** ** Python values and exceptions *)

Module Py.

Inductive exn : Type :=
| ValueError (msg : string)
| ZeroDivisionError
| IndexError
| RuntimeError (msg : string).

Inductive result (A : Type) : Type :=
| Ok (a : A)
| Raise (e : exn).
Arguments Ok {A} a.
Arguments Raise {A} e.

Definition bind {A B : Type} (c : result A) (k : A -> result B) : result B :=
  match c with
  | Ok a => k a
  | Raise e => Raise e
  end.

(** [try: c except Exception: h] *)
Definition try_except {A : Type} (c : result A) (h : A) : A :=
  match c with
  | Ok a => a
  | Raise _ => h
  end.

Fixpoint mapM {A B : Type} (f : A -> result B) (l : list A) : result (list B) :=
  match l with
  | [] => Ok []
  | x :: r =>
      bind (f x) (fun y => bind (mapM f r) (fun ys => Ok (y :: ys)))
  end.

(** [x / y] on Python floats. *)
Definition py_truediv (x y : R) : result R :=
  if Req_dec_T y 0 then Raise ZeroDivisionError else Ok (x / y).

(** [sum(xs)]: left to right, starting from 0. *)
Definition py_sum (xs : list R) : R := fold_left Rplus xs 0.

(** [min(a, b)] and [max(a, b)]: the first argument wins ties. *)
Definition py_min (a b : R) : R := if Rlt_dec b a then b else a.
Definition py_max (a b : R) : R := if Rlt_dec a b then b else a.

(** [x or d] for [x : Optional[float]]: [None] and [0.0] are falsy. *)
Definition or_float (x : option R) (d : R) : R :=
  match x with
  | Some v => if Req_dec_T v 0 then d else v
  | None => d
  end.

(** [int(x)]: truncation towards zero. *)
Definition py_int (x : R) : Z :=
  if Rle_dec 0 x then Int_part x else (- Int_part (- x))%Z.

(** [xs[a:b]] for [0 <= a <= b]. *)
Definition slice {A : Type} (xs : list A) (a b : nat) : list A :=
  firstn (b - a) (skipn a xs).

(** [max(xs, key=key)]: the first element with the greatest key;
    [ValueError] on an empty iterable. *)
Definition max_by {A : Type} (key : A -> R) (xs : list A) : result A :=
  match xs with
  | [] => Raise (ValueError "max() arg is an empty sequence")
  | x :: r =>
      Ok (fold_left (fun best y => if Rlt_dec (key best) (key y) then y else best) r x)
  end.

(** [enumerate(xs)] *)
Fixpoint enumerate_from {A : Type} (i : nat) (xs : list A) : list (nat * A) :=
  match xs with
  | [] => []
  | x :: r => (i, x) :: enumerate_from (S i) r
  end.
Definition enumerate {A : Type} (xs : list A) : list (nat * A) :=
  enumerate_from 0 xs.

(** [str.isspace] on the ASCII range: tab, line feed, vertical tab, form
    feed, carriage return, the four separators 28..31 and the space. *)
Definition isspace (c : ascii) : bool :=
  let n := nat_of_ascii c in
  ((9 <=? n) && (n <=? 13) || (28 <=? n) && (n <=? 32))%nat.

Fixpoint lstrip_chars (cs : list ascii) : list ascii :=
  match cs with
  | [] => []
  | c :: r => if isspace c then lstrip_chars r else cs
  end.

(** [s.strip()] *)
Definition strip (s : string) : string :=
  string_of_list_ascii
    (rev (lstrip_chars (rev (lstrip_chars (list_ascii_of_string s))))).

(** Truth value of a [str]: non-empty. *)
Definition str_truthy (s : string) : bool :=
  match s with
  | EmptyString => false
  | String _ _ => true
  end.

End Py.
Import Py.

Declare Scope py_scope.
Notation "x <- c ;; k" := (bind c (fun x => k))
  (at level 61, c at next level, right associativity) : py_scope.
Notation "' p <- c ;; k" := (bind c (fun x => let 'p := x in k))
  (at level 61, p pattern, c at next level, right associativity) : py_scope.
Open Scope py_scope.

(** ** numpy and soundfile *)

Module Np.

(** The array [sf.read] returns: one-dimensional for a mono file, frames
    by channels otherwise. *)
Inductive ndarray : Type :=
| Mono (samples : list R)
| Multi (frames : list (list R)).

(** [len(data)] *)
Definition len (a : ndarray) : nat :=
  match a with
  | Mono l => length l
  | Multi rows => length rows
  end.

(** [np.mean] of a one-dimensional array. *)
Definition mean (xs : list R) : R := py_sum xs / INR (length xs).

(** [np.sqrt(np.mean(x**2))] *)
Definition rms_of (xs : list R) : R := sqrt (mean (map (fun x => x * x) xs)).

Fixpoint insert_sorted (x : R) (l : list R) : list R :=
  match l with
  | [] => [x]
  | y :: r => if Rle_dec x y then x :: l else y :: insert_sorted x r
  end.

Definition sort (l : list R) : list R := fold_right insert_sorted [] l.

(** [np.percentile(a, q)] with the default linear interpolation between
    the two order statistics around position [q / 100 * (n - 1)]. *)
Definition percentile (a : list R) (q : R) : R :=
  let s := sort a in
  let pos := q / 100 * INR (length a - 1) in
  let lo := Z.to_nat (Int_part pos) in
  let hi := Nat.min (lo + 1) (length a - 1) in
  let frac := pos - IZR (Int_part pos) in
  nth lo s 0 + frac * (nth hi s 0 - nth lo s 0).

(** [np.log10] *)
Definition log10 (x : R) : R := ln x / ln 10.

End Np.
Import Np.

(** ** torch tensors *)

Module Torch.

Inductive device : Type :=
| Cpu
| Cuda (index : nat).

(** A one-dimensional float tensor (an embedding of shape [(D,)]) and
    the device that holds it. *)
Record tensor : Type := mkTensor {
  values : list R;
  dev : device
}.

(** [t.to(device)]; [None] leaves the tensor where it is. *)
Definition to (t : tensor) (d : option device) : tensor :=
  match d with
  | None => t
  | Some d' => mkTensor (values t) d'
  end.

(** [t.float()]: a change of dtype, invisible over [R]. *)
Definition float (t : tensor) : tensor := t.

(** The 2-norm along the last dimension. *)
Definition norm (xs : list R) : R := sqrt (py_sum (map (fun x => x * x) xs)).

(** The default [eps] of [F.normalize]. *)
Definition eps : R := 1e-12.

(** [F.normalize(t, dim=-1)]: [t / max(norm(t), eps)]. *)
Definition normalize (t : tensor) : tensor :=
  let denom := Rmax (norm (values t)) eps in
  mkTensor (map (fun x => x / denom) (values t)) (dev t).

(** [torch.stack(ts)]: the tensors must be of one size. *)
Definition stack (ts : list tensor) : result (list tensor) :=
  match ts with
  | [] => Raise (RuntimeError "stack expects a non-empty TensorList")
  | t :: r =>
      if forallb (fun u => (length (values u) =? length (values t))%nat) r
      then Ok ts
      else Raise (RuntimeError "stack expects each tensor to be equal size")
  end.

(** [a + b], [w * a] and [torch.zeros_like(a)] on tensors of one size. *)
Definition add (a b : tensor) : tensor :=
  mkTensor (map (fun p => fst p + snd p) (combine (values a) (values b))) (dev a).
Definition scale (w : R) (a : tensor) : tensor :=
  mkTensor (map (fun x => w * x) (values a)) (dev a).
Definition zeros_like (a : tensor) : tensor :=
  mkTensor (map (fun _ => 0) (values a)) (dev a).

(** [stacked.mean(dim=0)] on the rows [torch.stack] returned. *)
Definition mean0 (rows : list tensor) : tensor :=
  match rows with
  | [] => mkTensor [] Cpu
  | t :: _ =>
      let total := fold_left add rows (zeros_like t) in
      mkTensor (map (fun x => x / INR (length rows)) (values total)) (dev t)
  end.

(** [(a.flatten() * b.flatten()).sum().item()] *)
Definition dot (a b : tensor) : R :=
  py_sum (map (fun p => fst p * snd p) (combine (values a) (values b))).

End Torch.

(** ** The data model *)

Record AudioSampleInfo : Type := mkAudioSampleInfo {
  path : string;
  duration : R;
  transcript : option string;
  snr_estimate : option R;
  is_primary : bool;
  weight : R
}.

(** The dataclass default [weight: float = 1.0]. *)
Definition default_weight : R := 1.

Definition set_weight (s : AudioSampleInfo) (w : R) : AudioSampleInfo :=
  mkAudioSampleInfo (path s) (duration s) (transcript s) (snr_estimate s)
    (is_primary s) w.

Definition set_is_primary (s : AudioSampleInfo) (b : bool) : AudioSampleInfo :=
  mkAudioSampleInfo (path s) (duration s) (transcript s) (snr_estimate s)
    b (weight s).

(** [s.transcript and s.transcript.strip()] *)
Definition has_transcript (s : AudioSampleInfo) : bool :=
  match transcript s with
  | Some t => str_truthy t && str_truthy (strip t)
  | None => false
  end.

(** ** The analyzer *)

Section Analyzer.

(** [sf.read]: the decoded samples and the sample rate, or an exception. *)
Variable sf_read : string -> result (ndarray * Z).

Definition get_audio_duration (audio_path : string) : R :=
  try_except
    ('(data, sr) <- sf_read audio_path ;;
     py_truediv (INR (len data)) (IZR sr))
    0.

(** The body of [estimate_snr]'s [try]. *)
Definition estimate_snr_body (audio_path : string) : result R :=
  '(data, sr) <- sf_read audio_path ;;
  if ((len data =? 0)%nat || (sr <=? 0)%Z)%bool then Ok 0 else
  let audio :=
    match data with
    | Mono samples => samples
    | Multi frames => map mean frames
    end in
  let rms_total := rms_of audio in
  if Rlt_dec rms_total 1e-10 then Ok 0 else
  let frame_size := Z.to_nat (Z.max 1 (py_int (IZR sr * 0.02))) in
  let n_frames := (length audio / frame_size)%nat in
  if (n_frames <? 10)%nat then Ok 20 else
  let frame_rms :=
    map (fun i => rms_of (slice audio (i * frame_size) ((i + 1) * frame_size)))
        (seq 0 n_frames) in
  let noise_floor := percentile frame_rms 10 in
  if Rlt_dec noise_floor 1e-10 then Ok 40 else
  let snr := 20 * log10 (rms_total / noise_floor) in
  Ok (py_max 0 (py_min 60 snr)).

Definition estimate_snr (audio_path : string) : R :=
  try_except (estimate_snr_body audio_path) 20.

(** [s.snr_estimate or 20.0] followed by [min(1.0, snr / 40.0)]. *)
Definition quality_weight (s : AudioSampleInfo) : result R :=
  let snr := or_float (snr_estimate s) 20 in
  q <- py_truediv snr 40 ;;
  Ok (py_min 1 q).

(** Lines 116-127: the raw weights, only when the total duration is
    positive. *)
Definition compute_weights (samples : list AudioSampleInfo)
  : result (list AudioSampleInfo) :=
  let total_duration := py_sum (map duration samples) in
  if Rlt_dec 0 total_duration then
    mapM (fun s =>
            duration_weight <- py_truediv (duration s) total_duration ;;
            qw <- quality_weight s ;;
            Ok (set_weight s (0.7 * duration_weight + 0.3 * qw)))
         samples
  else Ok samples.

(** Lines 130-133: renormalization, only when the weights' sum is
    positive. *)
Definition normalize_weights (samples : list AudioSampleInfo)
  : result (list AudioSampleInfo) :=
  let total_weight := py_sum (map weight samples) in
  if Rlt_dec 0 total_weight then
    mapM (fun s =>
            w <- py_truediv (weight s) total_weight ;;
            Ok (set_weight s w))
         samples
  else Ok samples.

(** The [key] of line 146. *)
Definition primary_key (s : AudioSampleInfo) : R :=
  duration s * or_float (snr_estimate s) 20.

(** [samples[i]] under the key; the candidates are indices of [samples]. *)
Definition key_at (samples : list AudioSampleInfo) (i : nat) : R :=
  match nth_error samples i with
  | Some s => primary_key s
  | None => 0
  end.

Definition samples_with_transcript (samples : list AudioSampleInfo) : list nat :=
  map fst (filter (fun p => has_transcript (snd p)) (enumerate samples)).

Definition candidates (samples : list AudioSampleInfo) : list nat :=
  match samples_with_transcript samples with
  | [] => seq 0 (length samples)
  | c :: cs => c :: cs
  end.

(** Lines 137-149: the primary sample. *)
Definition select_primary (samples : list AudioSampleInfo)
  : result (list AudioSampleInfo) :=
  match samples with
  | [] => Ok samples
  | _ :: _ =>
      best_idx <- max_by (key_at samples) (candidates samples) ;;
      Ok (map (fun p => set_is_primary (snd p) (fst p =? best_idx)%nat)
              (enumerate samples))
  end.

(** Lines 94-98: [None] for every path when no transcripts are given, and
    [None] appended while the list is shorter than the paths. *)
Definition transcript_list (audio_paths : list string)
    (transcripts : option (list (option string))) : list (option string) :=
  let l :=
    match transcripts with
    | None => repeat None (length audio_paths)
    | Some ts => ts
    end in
  if (length l <? length audio_paths)%nat
  then l ++ repeat None (length audio_paths - length l)
  else l.

(** Lines 100-113: one record per path, the first one primary. *)
Definition initial_samples (audio_paths : list string)
    (transcripts : option (list (option string))) : list AudioSampleInfo :=
  map (fun p =>
         let i := fst p in
         let path := fst (snd p) in
         let transcript := snd (snd p) in
         mkAudioSampleInfo path (get_audio_duration path) transcript
           (Some (estimate_snr path)) (i =? 0)%nat default_weight)
      (enumerate (combine audio_paths (transcript_list audio_paths transcripts))).

Definition analyze_audio_samples (audio_paths : list string)
    (transcripts : option (list (option string)))
  : result (list AudioSampleInfo) :=
  let samples := initial_samples audio_paths transcripts in
  samples <- compute_weights samples ;;
  samples <- normalize_weights samples ;;
  select_primary samples.

End Analyzer.

(** ** The embedding fuser *)

(** Lines 208-214: with a positive threshold, an embedding whose cosine
    similarity to the centroid is below it is skipped. *)
Definition is_outlier (outlier_threshold : R) (centroid emb : Torch.tensor) : bool :=
  if Rlt_dec 0 outlier_threshold then
    let sim := Torch.dot emb centroid in
    if Rlt_dec sim outlier_threshold then true else false
  else false.

(** Lines 224-236: the weights divided by their sum, the weighted sum of
    the embeddings and its normalization. *)
Definition fuse_valid (valid_embeddings : list Torch.tensor)
    (valid_weights : list R) : result Torch.tensor :=
  let total_w := py_sum valid_weights in
  valid_weights <- mapM (fun w => py_truediv w total_w) valid_weights ;;
  match valid_embeddings with
  | [] => Raise IndexError
  | first :: _ =>
      let combined :=
        fold_left (fun acc p => Torch.add acc (Torch.scale (snd p) (fst p)))
                  (combine valid_embeddings valid_weights)
                  (Torch.zeros_like first) in
      Ok (Torch.normalize combined)
  end.

Definition combine_speaker_embeddings (embeddings : list Torch.tensor)
    (weights : option (list R)) (outlier_threshold : R)
    (device : option Torch.device) : result Torch.tensor :=
  match embeddings with
  | [] => Raise (ValueError "At least one embedding is required")
  | [e] => Ok (Torch.normalize (Torch.float (Torch.to e device)))
  | e0 :: _ =>
      let device :=
        match device with
        | None => Torch.dev e0
        | Some d => d
        end in
      let normed :=
        map (fun e => Torch.normalize (Torch.float (Torch.to e (Some device))))
            embeddings in
      let weights :=
        match weights with
        | None => repeat 1 (length normed)
        | Some ws => ws
        end in
      stacked <- Torch.stack normed ;;
      let centroid := Torch.normalize (Torch.mean0 stacked) in
      let valid :=
        filter (fun p => negb (is_outlier outlier_threshold centroid (fst p)))
               (combine normed weights) in
      let valid_embeddings := map fst valid in
      let valid_weights := map snd valid in
      match valid_embeddings with
      | [] => fuse_valid normed weights
      | _ :: _ => fuse_valid valid_embeddings valid_weights
      end
  end.

(** ** The prompt assembler *)

(** The prompt item of the synthesis model; the reference code is a
    sequence of codec tokens. *)
Record VoiceClonePromptItem : Type := mkVoiceClonePromptItem {
  ref_code : option (list Z);
  ref_spk_embedding : Torch.tensor;
  x_vector_only_mode : bool;
  icl_mode : bool;
  ref_text : option string
}.

Section Assembler.

(** [model.create_voice_clone_prompt(ref_audio, ref_text, x_vector_only_mode)] *)
Variable create_voice_clone_prompt :
  string -> option string -> bool -> result (list VoiceClonePromptItem).

(** Lines 264-271: one prompt per sample, [prompt[0]] of each answer. *)
Definition all_prompts_of (sample_infos : list AudioSampleInfo) (x_only : bool)
  : result (list (AudioSampleInfo * VoiceClonePromptItem)) :=
  mapM (fun info =>
          prompt <- create_voice_clone_prompt (path info) (transcript info) x_only ;;
          match prompt with
          | [] => Raise IndexError
          | p0 :: _ => Ok (info, p0)
          end)
       sample_infos.

(** Lines 286-303: the fallback chain for the primary prompt. *)
Definition find_primary_prompt
    (all_prompts : list (AudioSampleInfo * VoiceClonePromptItem)) (x_only : bool)
  : result VoiceClonePromptItem :=
  let primary_prompt :=
    if negb x_only then
      match find (fun p => is_primary (fst p) && has_transcript (fst p)) all_prompts with
      | Some p => Some (snd p)
      | None =>
          match find (fun p => has_transcript (fst p)) all_prompts with
          | Some p => Some (snd p)
          | None => None
          end
      end
    else None in
  let primary_prompt :=
    match primary_prompt with
    | Some p => Some p
    | None =>
        match find (fun p => is_primary (fst p)) all_prompts with
        | Some p => Some (snd p)
        | None => None
        end
    end in
  match primary_prompt with
  | Some p => Ok p
  | None =>
      match all_prompts with
      | [] => Raise IndexError
      | p :: _ => Ok (snd p)
      end
  end.

Definition create_combined_voice_clone_prompt
    (sample_infos : list AudioSampleInfo) (x_only : bool)
  : result (list VoiceClonePromptItem) :=
  match sample_infos with
  | [] => Raise (ValueError "At least one audio sample is required")
  | _ :: _ =>
      all_prompts <- all_prompts_of sample_infos x_only ;;
      let embeddings := map (fun p => ref_spk_embedding (snd p)) all_prompts in
      let weights := map (fun p => weight (fst p)) all_prompts in
      combined_embedding <-
        combine_speaker_embeddings embeddings (Some weights) 0.7 None ;;
      primary_prompt <- find_primary_prompt all_prompts x_only ;;
      let combined_prompt :=
        mkVoiceClonePromptItem
          (if x_only then None else ref_code primary_prompt)
          combined_embedding
          x_only
          (negb x_only)
          (if negb x_only then ref_text primary_prompt else None) in
      Ok [combined_prompt]
  end.

End Assembler.

(** ** The specification's own wording, for comparison with the code *)

Module Spec.

(** "decode to mono (average multi-channel signals)" *)
Definition to_mono (a : ndarray) : list R :=
  match a with
  | Mono samples => samples
  | Multi frames => map mean frames
  end.

(** "overall RMS energy"; a signal without samples carries none. *)
Definition rms (xs : list R) : R :=
  match xs with
  | [] => 0
  | _ :: _ => sqrt (mean (map (fun x => x * x) xs))
  end.

(** "a near-zero threshold" *)
Definition near_zero : R := 1e-10.

(** "fixed ~20 ms frames": a fiftieth of the sample rate, rounded down,
    and at least one sample. *)
Definition frame_length (sr : Z) : nat := Z.to_nat (Z.max 1 (sr / 50)).

(** The full frames of a signal, in order; a shorter tail is dropped. *)
Fixpoint chunks (fuel size : nat) (xs : list R) : list (list R) :=
  match fuel with
  | O => []
  | S fuel' =>
      if (length xs <? size)%nat then []
      else firstn size xs :: chunks fuel' size (skipn size xs)
  end.

Definition frames (size : nat) (xs : list R) : list (list R) :=
  chunks (length xs) size xs.

(** "clamp to [lo, hi]" *)
Definition clamp (lo hi x : R) : R := Rmax lo (Rmin hi x).

(** The quality estimate of §4.1 on the outcome of decoding. *)
Definition quality_estimate (decoded : result (ndarray * Z)) : R :=
  match decoded with
  | Raise _ => 20
  | Ok (data, sr) =>
      let mono := to_mono data in
      let total_rms := rms mono in
      if Rlt_dec total_rms near_zero then 0 else
      let fs := frames (frame_length sr) mono in
      if (length fs <? 10)%nat then 20 else
      let noise_floor := percentile (map rms fs) 10 in
      if Rlt_dec noise_floor near_zero then 40 else
      clamp 0 60 (20 * log10 (total_rms / noise_floor))
  end.


End Spec.

(** ** Closed forms of the analyzer's phases

    What each phase returns when it returns; the lemmas below show that
    the phases always do. *)

(** The quality weight of lines 123-124. *)
Definition quality_w (s : AudioSampleInfo) : R :=
  py_min 1 (or_float (snr_estimate s) 20 / 40).

(** The weight of line 127 for a positive total duration. *)
Definition raw_weight (total_duration : R) (s : AudioSampleInfo) : R :=
  0.7 * (duration s / total_duration) + 0.3 * quality_w s.

Definition weigh_w (samples : list AudioSampleInfo) (s : AudioSampleInfo) : R :=
  let total_duration := py_sum (map duration samples) in
  if Rlt_dec 0 total_duration then raw_weight total_duration s else weight s.

Definition weigh (samples : list AudioSampleInfo) : list AudioSampleInfo :=
  map (fun s => set_weight s (weigh_w samples s)) samples.

Definition renorm_w (samples : list AudioSampleInfo) (s : AudioSampleInfo) : R :=
  let total_weight := py_sum (map weight samples) in
  if Rlt_dec 0 total_weight then weight s / total_weight else weight s.

Definition renorm (samples : list AudioSampleInfo) : list AudioSampleInfo :=
  map (fun s => set_weight s (renorm_w samples s)) samples.

(** One step of [max]: a later element replaces the best one only with a
    strictly greater key. *)
Definition max_step {A : Type} (key : A -> R) (best y : A) : A :=
  if Rlt_dec (key best) (key y) then y else best.

Definition best_index (samples : list AudioSampleInfo) : nat :=
  match candidates samples with
  | [] => 0%nat
  | c :: cs => fold_left (max_step (key_at samples)) cs c
  end.

Definition mark_primary (samples : list AudioSampleInfo) : list AudioSampleInfo :=
  map (fun p => set_is_primary (snd p) (fst p =? best_index samples)%nat)
      (enumerate samples).

(** ** Predicates of the statements *)

(** A sample whose quality estimate, when present, is not negative. *)
Definition snr_nonneg (s : AudioSampleInfo) : Prop :=
  forall v, snr_estimate s = Some v -> 0 <= v.

(** A decoder that reports positive sample rates only. *)
Definition rates_positive (sf_read : string -> result (ndarray * Z)) : Prop :=
  forall p data sr, sf_read p = Ok (data, sr) -> (0 < sr)%Z.

(** A sample that may be chosen as primary: one with a transcript, or any
    sample when no sample of the set has a transcript. *)
Definition eligible (samples : list AudioSampleInfo) (s : AudioSampleInfo) : Prop :=
  existsb has_transcript samples = true -> has_transcript s = true.

(** Embeddings of one dimension. *)
Definition same_shape (ts : list Torch.tensor) : Prop :=
  forall t u, In t ts -> In u ts ->
              length (Torch.values t) = length (Torch.values u).

(** ** Names for the fuser's intermediate values *)

(** Lines 185-186: the device of the first embedding unless one is given. *)
Definition target_device (device : option Torch.device) (e0 : Torch.tensor)
  : Torch.device :=
  match device with
  | None => Torch.dev e0
  | Some d => d
  end.

(** Lines 189-192 *)
Definition normed_embeddings (d : Torch.device) (embeddings : list Torch.tensor)
  : list Torch.tensor :=
  map (fun e => Torch.normalize (Torch.float (Torch.to e (Some d)))) embeddings.

(** Lines 195-196 *)
Definition weights_or_default (weights : option (list R)) (n : nat) : list R :=
  match weights with
  | None => repeat 1 n
  | Some ws => ws
  end.

(** Lines 229-231 *)
Definition weighted_sum (es : list Torch.tensor) (ws : list R)
    (start : Torch.tensor) : Torch.tensor :=
  fold_left (fun acc p => Torch.add acc (Torch.scale (snd p) (fst p)))
            (combine es ws) start.

(** ** Concrete inputs *)

(** No file can be read. *)
Definition unreadable : string -> result (ndarray * Z) :=
  fun _ => Raise (RuntimeError "unreadable").

(** Every file holds two samples of amplitude 1 at one sample per second. *)
Definition two_seconds : string -> result (ndarray * Z) :=
  fun _ => Ok (Mono [1; 1], 1%Z).

(** A silent three-second file and a two-second file of amplitude 1, both
    at one sample per second. *)
Definition silence_and_voice : string -> result (ndarray * Z) :=
  fun p =>
    if String.eqb p "silence.wav"
    then Ok (Mono [0; 0; 0], 1%Z)
    else Ok (Mono [1; 1], 1%Z).


(** Ten samples of amplitude 1 at 50 samples per second: ten frames of
    one sample. *)
Definition steady_tone : string -> result (ndarray * Z) :=
  fun _ => Ok (Mono (repeat 1 10), 50%Z).

(** The scenario of the specification's §8: 5 s, 10 s and 15 s with
    estimates of 10, 30 and 35 dB. *)
Definition scenario : list AudioSampleInfo :=
  [mkAudioSampleInfo "a.wav" 5 None (Some 10) true 1;
   mkAudioSampleInfo "b.wav" 10 None (Some 30) false 1;
   mkAudioSampleInfo "c.wav" 15 None (Some 35) false 1].

(** Two unit vectors that point in opposite directions, a unit vector of
    the plane, and the zero embedding. *)
Definition east : Torch.tensor := Torch.mkTensor [1] Torch.Cpu.
Definition west : Torch.tensor := Torch.mkTensor [-1] Torch.Cpu.
Definition north : Torch.tensor := Torch.mkTensor [0; 1] Torch.Cpu.
Definition origin : Torch.tensor := Torch.mkTensor [0; 0] Torch.Cpu.

(** A synthesis model that answers every request with one prompt item
    carrying a reference code and echoing the transcript, in either mode. *)
Definition echo_model (ref_audio : string) (text : option string) (x_only : bool)
  : result (list VoiceClonePromptItem) :=
  Ok [mkVoiceClonePromptItem (Some [1; 2; 3]%Z) north x_only (negb x_only) text].

Definition hello_sample : AudioSampleInfo :=
  mkAudioSampleInfo "hello.wav" 3 (Some "hello"%string) (Some 20) true 1.

From Stdlib Require DecimalString.

(** ** Further predicates and inputs *)

(** [e'] is [e] scaled by a positive factor, on the same device, both with a
    norm of at least [eps]. *)
Definition rescaled (e e' : Torch.tensor) : Prop :=
  Torch.dev e' = Torch.dev e /\
  exists c, 0 < c /\
    Torch.values e' = map (fun x => c * x) (Torch.values e) /\
    Torch.eps <= Torch.norm (Torch.values e) /\
    Torch.eps <= Torch.norm (Torch.values e').

(** [east] and [west] at twice and three times the length. *)
Definition far_east : Torch.tensor := Torch.mkTensor [2] Torch.Cpu.
Definition far_west : Torch.tensor := Torch.mkTensor [-3] Torch.Cpu.

(** A synthesis model that cannot process ["bad.wav"], returns no prompt
    item for ["empty.wav"], and answers like [echo_model] otherwise. *)
Definition flaky_model (ref_audio : string) (text : option string) (x_only : bool)
  : result (list VoiceClonePromptItem) :=
  if String.eqb ref_audio "bad.wav" then Raise (RuntimeError "cannot read bad.wav")
  else if String.eqb ref_audio "empty.wav" then Ok []
  else echo_model ref_audio text x_only.

Definition bad_sample : AudioSampleInfo :=
  mkAudioSampleInfo "bad.wav" 2 None (Some 20) false 1.
Definition empty_sample : AudioSampleInfo :=
  mkAudioSampleInfo "empty.wav" 2 None (Some 20) false 1.


(** ** The display helpers *)

(** Truth value of an [Optional[float]]: [None] and [0.0] are falsy. *)
Definition float_truthy (x : option R) : bool :=
  match x with
  | Some v => if Req_dec_T v 0 then false else true
  | None => false
  end.

(** [str(n)] for a natural number. *)
Definition str_of_nat (n : nat) : string :=
  DecimalString.NilZero.string_of_uint (Nat.to_uint n).

(** The line break of ["\n"]. *)
Definition newline : string := String (ascii_of_nat 10) EmptyString.

(** [max(xs)] and [min(xs)] of a list that starts with [x]. *)
Definition list_max (x : R) (r : list R) : R := fold_left py_max r x.
Definition list_min (x : R) (r : list R) : R := fold_left py_min r x.

Section Display.

(** [f"{x:.1f}"] and [f"{x:.0f}"], the decimal renderings of a float, and
    [Path(p).name], the last component of a path. *)
Variable fmt_1f : R -> string.
Variable fmt_0f : R -> string.
Variable path_name : string -> string.

(** [Path(s.path).name if s.path else f"Sample {i + 1}"] *)
Definition display_name (i : nat) (s : AudioSampleInfo) : string :=
  if str_truthy (path s) then path_name (path s)
  else ("Sample " ++ str_of_nat (i + 1))%string.

(** Lines 327-331: the line of one sample. *)
Definition summary_line (i : nat) (s : AudioSampleInfo) : string :=
  let name := display_name i s in
  let primary_marker := if is_primary s then " ★"%string else ""%string in
  let snr_text :=
    match snr_estimate s with
    | Some v =>
        if float_truthy (Some v)
        then ("SNR: " ++ fmt_0f v ++ "dB")%string
        else ""%string
    | None => ""%string
    end in
  ("• " ++ name ++ ": " ++ fmt_1f (duration s) ++ "s" ++ primary_marker
        ++ " " ++ snr_text)%string.

(** Lines 335-339: the recommendation for a total duration. *)
Definition recommendation (total_duration : R) : list string :=
  if Rlt_dec total_duration 10
  then ["⚠️ Consider adding more samples for better quality"%string]
  else if Rlt_dec 60 total_duration
  then ["⚠️ Total duration is long, consider removing some samples"%string]
  else [].

(** Lines 324-339: the [lines] of a non-empty summary. *)
Definition summary_lines (samples : list AudioSampleInfo) : list string :=
  let total_duration := py_sum (map duration samples) in
  map (fun p => summary_line (fst p) (snd p)) (enumerate samples)
  ++ [(newline ++ "Total: " ++ fmt_1f total_duration ++ "s ("
         ++ str_of_nat (length samples) ++ " samples)")%string]
  ++ recommendation total_duration.

Definition format_samples_summary (samples : list AudioSampleInfo) : string :=
  match samples with
  | [] => "No samples"%string
  | _ :: _ => String.concat newline (summary_lines samples)
  end.

(** Lines 348-359: the warnings of one sample. *)
Definition sample_warnings (i : nat) (s : AudioSampleInfo) : list string :=
  let name := display_name i s in
  (if Rlt_dec (duration s) 3
   then [("⚠️ " ++ name ++ ": Too short (" ++ fmt_1f (duration s)
            ++ "s). Min 3s recommended.")%string]
   else [])
  ++
  match snr_estimate s with
  | Some v =>
      if (float_truthy (Some v) && if Rlt_dec v 15 then true else false)%bool
      then [("⚠️ " ++ name ++ ": Low audio quality detected (SNR: "
               ++ fmt_0f v ++ "dB)")%string]
      else []
  | None => []
  end.

(** Lines 362-368: the check of the durations against each other. *)
Definition variance_warning (samples : list AudioSampleInfo) : list string :=
  if (2 <=? length samples)%nat then
    match map duration samples with
    | [] => []
    | d :: ds =>
        if Rlt_dec (5 * list_min d ds) (list_max d ds)
        then ["⚠️ Large duration variance between samples. Ensure all samples are from the same speaker."%string]
        else []
    end
  else [].

Definition get_sample_warnings (samples : list AudioSampleInfo) : list string :=
  flat_map (fun p => sample_warnings (fst p) (snd p)) (enumerate samples)
  ++ variance_warning samples.

End Display.

(** ** The model loader: [audio/model_loader.py]

    The cache [loaded_models] is an [OrderedDict]: an association list,
    oldest entry first.  The file system and the devices are a world that
    the loader reads and, when it copies the tokenizer, changes.  The
    [print] calls and [_device_cleanup], which frees memory only, are not
    modelled. *)

Module Loader.

Inductive dtype : Type :=
| Bfloat16
| Float16
| Float32.

Definition MODEL_PATHS : list (string * string) :=
  [("1.7B-CustomVoice", "./Qwen3-TTS-12Hz-1.7B-CustomVoice");
   ("0.6B-CustomVoice", "./Qwen3-TTS-12Hz-0.6B-CustomVoice");
   ("1.7B-Base", "./Qwen3-TTS-12Hz-1.7B-Base");
   ("0.6B-Base", "./Qwen3-TTS-12Hz-0.6B-Base");
   ("1.7B-VoiceDesign", "./Qwen3-TTS-12Hz-1.7B-VoiceDesign")]%string.

Definition MAX_MODELS_IN_MEMORY : nat := 1.

Definition preferred_dtypes : list dtype := [Bfloat16; Float16; Float32].

(** [d.get(k)], [k in d], [del d[k]], [d[k] = v] and [d.move_to_end(k)]
    on a dictionary kept in insertion order. *)
Fixpoint dict_get {V : Type} (k : string) (d : list (string * V)) : option V :=
  match d with
  | [] => None
  | (k', v) :: r => if String.eqb k k' then Some v else dict_get k r
  end.

Definition dict_mem {V : Type} (k : string) (d : list (string * V)) : bool :=
  match dict_get k d with
  | Some _ => true
  | None => false
  end.

Definition dict_del {V : Type} (k : string) (d : list (string * V))
  : list (string * V) :=
  filter (fun p => negb (String.eqb k (fst p))) d.

Fixpoint dict_set {V : Type} (k : string) (v : V) (d : list (string * V))
  : list (string * V) :=
  match d with
  | [] => [(k, v)]
  | (k', v') :: r =>
      if String.eqb k k' then (k', v) :: r else (k', v') :: dict_set k v r
  end.

Definition move_to_end {V : Type} (k : string) (d : list (string * V))
  : list (string * V) :=
  match dict_get k d with
  | Some v => dict_del k d ++ [(k, v)]
  | None => d
  end.

(** [repr] of a list of strings without quotes inside. *)
Definition repr_str_list (l : list string) : string :=
  ("[" ++ String.concat ", " (map (fun k => "'" ++ k ++ "'") l) ++ "]")%string.

Section WithWorld.

(** The positional and other keyword arguments of [generate], and what it
    returns. *)
Variables Args Output : Type.

(** The keyword arguments of one call of [generate]: [min_new_tokens],
    when given, is an integer. *)
Record call : Type := mkCall {
  min_new_tokens : option Z;
  other_args : Args
}.

(** [model.model], when it exists: its mode and, when it exists, its
    [generate]. *)
Record generation_model : Type := mkGenerationModel {
  training : bool;
  generate : option (call -> Output)
}.

Record tts_model : Type := mkTtsModel {
  inner : option generation_model
}.

(** Lines 49-55: one call of the patched [generate]. *)
Definition patched_generate (original_generate : call -> Output)
    (min_new : Z) (kwargs : call) : Output :=
  if match min_new_tokens kwargs with
     | None => true
     | Some v => (v <? min_new)%Z
     end
  then original_generate (mkCall (Some min_new) (other_args kwargs))
  else original_generate kwargs.

Definition _patch_generate_min_tokens (model : tts_model) (min_new : Z)
  : tts_model :=
  match inner model with
  | Some m =>
      match generate m with
      | Some original_generate =>
          mkTtsModel
            (Some (mkGenerationModel (training m)
                     (Some (patched_generate original_generate min_new))))
      | None => model
      end
  | None => model
  end.

(** [try: m.model.eval() except Exception: pass] *)
Definition eval_mode (m : tts_model) : tts_model :=
  match inner m with
  | Some g => mkTtsModel (Some (mkGenerationModel false (generate g)))
  | None => m
  end.

(** The file system and the devices. *)
Variable World : Type.

(** [int(os.environ.get("QWEN_TTS_MIN_NEW_TOKENS", "60"))] at import. *)
Variable MIN_NEW_TOKENS_DEFAULT : Z.

(** [from qwen_tts import Qwen3TTSModel] *)
Variable import_qwen_tts : World -> result unit.
(** [os.path.exists] and [Path.exists] *)
Variable path_exists : World -> string -> bool.
(** [dst.parent.mkdir(exist_ok=True); shutil.copy(src, dst)] *)
Variable copy_tokenizer : World -> string -> string -> World * result unit.
(** [torch.cuda.is_available()] and the same for [mps]. *)
Variable cuda_available : World -> bool.
Variable mps_available : World -> bool.
(** [Qwen3TTSModel.from_pretrained(path, device_map=..., torch_dtype=...)] *)
Variable from_pretrained : World -> string -> string -> dtype -> result tts_model.
(** [str(e)] *)
Variable str_of_exn : exn -> string.

Record state : Type := mkState {
  loaded_models : list (string * tts_model);
  world : World
}.

Definition _get_device (w : World) : string :=
  if cuda_available w then "cuda"%string
  else if mps_available w then "mps"%string
  else "cpu"%string.

(** [_unload_model] *)
Definition _unload_model (model_name : string)
    (models : list (string * tts_model)) : list (string * tts_model) :=
  if dict_mem model_name models then dict_del model_name models else models.

(** Lines 103-105: unload the oldest model while the cache is full. *)
Fixpoint evict (fuel : nat) (models : list (string * tts_model))
  : list (string * tts_model) :=
  match fuel with
  | O => models
  | S fuel' =>
      if (MAX_MODELS_IN_MEMORY <=? length models)%nat then
        match models with
        | [] => models
        | (old_name, _) :: _ => evict fuel' (_unload_model old_name models)
        end
      else models
  end.

(** Lines 132-151: the dtypes in order, the first that loads wins. *)
Fixpoint load_with (models : list (string * tts_model)) (w : World)
    (model_name model_path device : string) (dtypes : list dtype)
    (last_err : option exn) : state * result tts_model :=
  match dtypes with
  | [] =>
      (mkState models w,
       Raise (RuntimeError
                ("Failed to load " ++ model_name ++ ": "
                   ++ match last_err with
                      | Some e => str_of_exn e
                      | None => "None"
                      end)%string))
  | tdtype :: rest =>
      match from_pretrained w model_path device tdtype with
      | Ok m =>
          let m := _patch_generate_min_tokens (eval_mode m) MIN_NEW_TOKENS_DEFAULT in
          (mkState (dict_set model_name m models) w, Ok m)
      | Raise e => load_with models w model_name model_path device rest (Some e)
      end
  end.

Definition tokenizer_src : string := "Qwen3-TTS-Tokenizer-12Hz/model.safetensors".

(** Lines 85-151.  Paths are named by strings: [Path(model_path) / ...] is
    written with [model_path] as it stands, which names the same file. *)
Definition get_model (st : state) (model_name : string)
  : state * result tts_model :=
  match dict_get model_name (loaded_models st) with
  | Some m => (mkState (move_to_end model_name (loaded_models st)) (world st), Ok m)
  | None =>
      let models := evict (length (loaded_models st)) (loaded_models st) in
      let w := world st in
      match import_qwen_tts w with
      | Raise e => (mkState models w, Raise e)
      | Ok _ =>
          match dict_get model_name MODEL_PATHS with
          | None =>
              (mkState models w,
               Raise (ValueError
                        ("Unknown model: " ++ model_name ++ ". Available: "
                           ++ repr_str_list (map fst MODEL_PATHS))%string))
          | Some model_path =>
              if negb (str_truthy model_path) then
                (mkState models w,
                 Raise (ValueError
                          ("Unknown model: " ++ model_name ++ ". Available: "
                             ++ repr_str_list (map fst MODEL_PATHS))%string))
              else if negb (path_exists w model_path) then
                (mkState models w,
                 Raise (ValueError ("Model not found: " ++ model_path)%string))
              else
                let speech_tokenizer_dst :=
                  (model_path ++ "/speech_tokenizer/model.safetensors")%string in
                let copied :=
                  if (path_exists w tokenizer_src
                      && negb (path_exists w speech_tokenizer_dst))%bool
                  then copy_tokenizer w tokenizer_src speech_tokenizer_dst
                  else (w, Ok tt) in
                match snd copied with
                | Raise e => (mkState models (fst copied), Raise e)
                | Ok _ =>
                    load_with models (fst copied) model_name model_path
                      (_get_device (fst copied)) preferred_dtypes None
                end
          end
      end
  end.

End WithWorld.

End Loader.

(** A small world for the loader: the paths that exist, no accelerator,
    a checkpoint that only loads in [float32], and a [generate] that
    reports the [min_new_tokens] it was called with. *)
Module LoaderExample.

Import Loader.

Definition files : Type := list string.

Definition import_ok (w : files) : result unit := Ok tt.

Definition path_in (w : files) (p : string) : bool :=
  existsb (String.eqb p) w.

Definition copy_file (w : files) (src dst : string) : files * result unit :=
  (dst :: w, Ok tt).

Definition no_device (w : files) : bool := false.

Definition report : call unit -> option Z := @min_new_tokens unit.

Definition checkpoint : tts_model unit (option Z) :=
  mkTtsModel _ _ (Some (mkGenerationModel _ _ true (Some report))).

Definition float32_only (w : files) (path device : string) (t : dtype)
  : result (tts_model unit (option Z)) :=
  match t with
  | Float32 => Ok checkpoint
  | _ => Raise (RuntimeError "unsupported dtype")
  end.


Definition message (e : exn) : string :=
  match e with
  | ValueError msg => msg
  | RuntimeError msg => msg
  | ZeroDivisionError => "division by zero"
  | IndexError => "list index out of range"
  end.

Definition disk : files := ["./Qwen3-TTS-12Hz-0.6B-Base"]%string.


Definition get (st : state unit (option Z) files) (model_name : string)
  : state unit (option Z) files * result (tts_model unit (option Z)) :=
  get_model unit (option Z) files 60 import_ok path_in copy_file
    no_device no_device float32_only message st model_name.


Definition served : tts_model unit (option Z) :=
  _patch_generate_min_tokens _ _ (eval_mode _ _ checkpoint) 60.

(** A cache that holds another model, and the same world where no
    checkpoint loads. *)
Definition busy : state unit (option Z) files :=
  mkState _ _ _ [("1.7B-Base"%string, served)] disk.


End LoaderExample.

(** ** Python primitives: basic facts *)

Lemma fold_left_Rplus_acc (xs : list R) (a : R) :
  fold_left Rplus xs a = a + fold_left Rplus xs 0.
Proof.
  revert a; induction xs as [|x xs IH]; intros a; simpl.
  - lra.
  - rewrite (IH (a + x)), (IH (0 + x)). lra.
Qed.

Lemma py_sum_nil : py_sum [] = 0.
Proof. reflexivity. Qed.

Lemma py_sum_cons (x : R) (xs : list R) : py_sum (x :: xs) = x + py_sum xs.
Proof.
  unfold py_sum; simpl. rewrite fold_left_Rplus_acc. lra.
Qed.

Lemma py_sum_app (xs ys : list R) : py_sum (xs ++ ys) = py_sum xs + py_sum ys.
Proof.
  induction xs as [|x xs IH]; simpl.
  - rewrite py_sum_nil. lra.
  - rewrite !py_sum_cons, IH. lra.
Qed.

Lemma py_sum_nonneg (xs : list R) :
  Forall (fun x => 0 <= x) xs -> 0 <= py_sum xs.
Proof.
  induction 1 as [|x xs Hx _ IH].
  - rewrite py_sum_nil. lra.
  - rewrite py_sum_cons. lra.
Qed.

Lemma py_sum_map_div {A : Type} (f : A -> R) (t : R) (xs : list A) :
  py_sum (map (fun x => f x / t) xs) = py_sum (map f xs) / t.
Proof.
  induction xs as [|x xs IH]; simpl.
  - rewrite py_sum_nil. unfold Rdiv. lra.
  - rewrite !py_sum_cons, IH. unfold Rdiv. lra.
Qed.

Lemma py_sum_map_plus {A : Type} (f g : A -> R) (xs : list A) :
  py_sum (map (fun x => f x + g x) xs) = py_sum (map f xs) + py_sum (map g xs).
Proof.
  induction xs as [|x xs IH]; simpl.
  - rewrite py_sum_nil. lra.
  - rewrite !py_sum_cons, IH. lra.
Qed.

Lemma py_sum_map_scal {A : Type} (c : R) (f : A -> R) (xs : list A) :
  py_sum (map (fun x => c * f x) xs) = c * py_sum (map f xs).
Proof.
  induction xs as [|x xs IH]; simpl.
  - rewrite py_sum_nil. lra.
  - rewrite !py_sum_cons, IH. lra.
Qed.

Lemma py_sum_repeat (c : R) (n : nat) : py_sum (repeat c n) = INR n * c.
Proof.
  induction n as [|n IH].
  - simpl. rewrite py_sum_nil. lra.
  - cbn [repeat]. rewrite py_sum_cons, IH, S_INR. lra.
Qed.

Lemma py_truediv_ok (x y : R) : y <> 0 -> py_truediv x y = Ok (x / y).
Proof.
  intros Hy. unfold py_truediv. destruct (Req_dec_T y 0); [contradiction|reflexivity].
Qed.

Lemma py_truediv_zero (x : R) : py_truediv x 0 = Raise ZeroDivisionError.
Proof.
  unfold py_truediv. destruct (Req_dec_T 0 0) as [_|H]; [reflexivity|].
  exfalso; apply H; reflexivity.
Qed.

Lemma py_min_Rmin (a b : R) : py_min a b = Rmin a b.
Proof.
  unfold py_min, Rmin. destruct (Rlt_dec b a), (Rle_dec a b); lra.
Qed.

Lemma py_max_Rmax (a b : R) : py_max a b = Rmax a b.
Proof.
  unfold py_max, Rmax. destruct (Rlt_dec a b), (Rle_dec a b); lra.
Qed.

Lemma or_float_zero (d : R) : or_float (Some 0) d = d.
Proof.
  unfold or_float. destruct (Req_dec_T 0 0) as [_|H]; [reflexivity|].
  exfalso; apply H; reflexivity.
Qed.

Lemma or_float_nonzero (v d : R) : v <> 0 -> or_float (Some v) d = v.
Proof.
  intros Hv. unfold or_float. destruct (Req_dec_T v 0); [contradiction|reflexivity].
Qed.

Lemma or_float_nonneg (x : option R) (d : R) :
  0 <= d -> (forall v, x = Some v -> 0 <= v) -> 0 <= or_float x d.
Proof.
  intros Hd Hx. destruct x as [v|]; simpl; [|exact Hd].
  destruct (Req_dec_T v 0); [exact Hd|]. apply Hx. reflexivity.
Qed.

Lemma mapM_ok_map {A B : Type} (f : A -> result B) (g : A -> B) (l : list A) :
  (forall x, In x l -> f x = Ok (g x)) -> mapM f l = Ok (map g l).
Proof.
  induction l as [|x l IH]; intros H; simpl.
  - reflexivity.
  - rewrite (H x (or_introl eq_refl)). simpl.
    rewrite IH by (intros y Hy; apply H; right; exact Hy). reflexivity.
Qed.

Lemma mapM_raise_head {A B : Type} (f : A -> result B) (x : A) (l : list A) (e : exn) :
  f x = Raise e -> mapM f (x :: l) = Raise e.
Proof. intros H. simpl. rewrite H. reflexivity. Qed.

Lemma enumerate_from_length {A : Type} (i : nat) (xs : list A) :
  length (enumerate_from i xs) = length xs.
Proof.
  revert i; induction xs as [|x xs IH]; intros i; simpl; [reflexivity|].
  now rewrite IH.
Qed.

Lemma enumerate_from_nth_error {A : Type} (xs : list A) (i k : nat) :
  nth_error (enumerate_from i xs) k =
  option_map (fun x => ((i + k)%nat, x)) (nth_error xs k).
Proof.
  revert i k; induction xs as [|x xs IH]; intros i k.
  - destruct k; reflexivity.
  - destruct k as [|k]; simpl.
    + now rewrite Nat.add_0_r.
    + rewrite IH. now rewrite Nat.add_succ_comm.
Qed.

Lemma enumerate_nth_error {A : Type} (xs : list A) (k : nat) :
  nth_error (enumerate xs) k = option_map (fun x => (k, x)) (nth_error xs k).
Proof. unfold enumerate. now rewrite enumerate_from_nth_error. Qed.

Lemma map_snd_enumerate_from {A : Type} (i : nat) (xs : list A) :
  map snd (enumerate_from i xs) = xs.
Proof.
  revert i; induction xs as [|x xs IH]; intros i; simpl; [reflexivity|].
  now rewrite IH.
Qed.

Lemma nth_error_combine {A B : Type} (l1 : list A) (l2 : list B) (i : nat) :
  nth_error (combine l1 l2) i =
  match nth_error l1 i, nth_error l2 i with
  | Some a, Some b => Some (a, b)
  | _, _ => None
  end.
Proof.
  revert l2 i; induction l1 as [|a l1 IH]; intros l2 i.
  - destruct i; reflexivity.
  - destruct l2 as [|b l2].
    + destruct i; simpl; [reflexivity|]. destruct (nth_error l1 i); reflexivity.
    + destruct i; simpl; [reflexivity|apply IH].
Qed.

(** ** The argmax of [max(candidates, key=...)] *)

Section MaxBy.

Context {A : Type} (key : A -> R).

Lemma max_fold_in (r : list A) (x : A) :
  In (fold_left (max_step key) r x) (x :: r).
Proof.
  revert x; induction r as [|y r IH]; intros x; simpl.
  - left; reflexivity.
  - specialize (IH (max_step key x y)). simpl in IH.
    destruct IH as [IH|IH].
    + rewrite <- IH. unfold max_step.
      destruct (Rlt_dec (key x) (key y)); [right; left|left]; reflexivity.
    + right; right; exact IH.
Qed.



Lemma max_by_cons (x : A) (r : list A) :
  max_by key (x :: r) = Ok (fold_left (max_step key) r x).
Proof. reflexivity. Qed.

End MaxBy.

(** ** The analyzer: every phase returns *)

Lemma set_weight_same (s : AudioSampleInfo) : set_weight s (weight s) = s.
Proof. destruct s; reflexivity. Qed.

Lemma quality_weight_ok (s : AudioSampleInfo) :
  quality_weight s = Ok (py_min 1 (or_float (snr_estimate s) 20 / 40)).
Proof.
  unfold quality_weight. rewrite py_truediv_ok by lra. reflexivity.
Qed.

Lemma compute_weights_eq (samples : list AudioSampleInfo) :
  compute_weights samples = Ok (weigh samples).
Proof.
  unfold compute_weights, weigh, weigh_w.
  destruct (Rlt_dec 0 (py_sum (map duration samples))) as [Hpos|Hneg].
  - apply mapM_ok_map. intros s _.
    rewrite py_truediv_ok by lra. simpl.
    rewrite quality_weight_ok. reflexivity.
  - f_equal. rewrite <- (map_id samples) at 1.
    apply map_ext. intros s. now rewrite set_weight_same.
Qed.

Lemma normalize_weights_eq (samples : list AudioSampleInfo) :
  normalize_weights samples = Ok (renorm samples).
Proof.
  unfold normalize_weights, renorm, renorm_w.
  destruct (Rlt_dec 0 (py_sum (map weight samples))) as [Hpos|Hneg].
  - apply mapM_ok_map. intros s _.
    rewrite py_truediv_ok by lra. reflexivity.
  - f_equal. rewrite <- (map_id samples) at 1.
    apply map_ext. intros s. now rewrite set_weight_same.
Qed.

Lemma candidates_nonempty (samples : list AudioSampleInfo) :
  samples <> [] -> candidates samples <> [].
Proof.
  intros Hne. unfold candidates.
  destruct (samples_with_transcript samples); [|discriminate].
  destruct samples; [contradiction|discriminate].
Qed.

Lemma select_primary_eq (samples : list AudioSampleInfo) :
  select_primary samples = Ok (mark_primary samples).
Proof.
  destruct samples as [|s0 rest]; [reflexivity|].
  unfold select_primary, mark_primary, best_index.
  pose proof (candidates_nonempty (s0 :: rest)) as Hc.
  destruct (candidates (s0 :: rest)) as [|c cs].
  - exfalso; apply Hc; [discriminate|reflexivity].
  - rewrite max_by_cons. reflexivity.
Qed.

Lemma analyze_audio_samples_eq sf_read audio_paths transcripts :
  analyze_audio_samples sf_read audio_paths transcripts =
  Ok (mark_primary (renorm (weigh (initial_samples sf_read audio_paths transcripts)))).
Proof.
  unfold analyze_audio_samples.
  rewrite compute_weights_eq. simpl.
  rewrite normalize_weights_eq. simpl.
  apply select_primary_eq.
Qed.

(** ** The analyzer: what the records hold *)

Lemma nth_error_weigh (samples : list AudioSampleInfo) (i : nat) :
  nth_error (weigh samples) i =
  option_map (fun s => set_weight s (weigh_w samples s)) (nth_error samples i).
Proof. unfold weigh. apply nth_error_map. Qed.

Lemma nth_error_renorm (samples : list AudioSampleInfo) (i : nat) :
  nth_error (renorm samples) i =
  option_map (fun s => set_weight s (renorm_w samples s)) (nth_error samples i).
Proof. unfold renorm. apply nth_error_map. Qed.

Lemma nth_error_mark_primary (samples : list AudioSampleInfo) (i : nat) :
  nth_error (mark_primary samples) i =
  option_map (fun s => set_is_primary s (i =? best_index samples)%nat)
             (nth_error samples i).
Proof.
  unfold mark_primary. rewrite nth_error_map, enumerate_nth_error.
  destruct (nth_error samples i); reflexivity.
Qed.

Lemma length_weigh samples : length (weigh samples) = length samples.
Proof. unfold weigh. apply length_map. Qed.

Lemma length_renorm samples : length (renorm samples) = length samples.
Proof. unfold renorm. apply length_map. Qed.

Lemma length_mark_primary samples : length (mark_primary samples) = length samples.
Proof.
  unfold mark_primary, enumerate. now rewrite length_map, enumerate_from_length.
Qed.

Section AnalyzerFacts.

Variable sf_read : string -> result (ndarray * Z).

Lemma transcript_list_length audio_paths transcripts :
  (length audio_paths <= length (transcript_list audio_paths transcripts))%nat.
Proof.
  unfold transcript_list.
  set (l := match transcripts with None => _ | Some ts => ts end).
  destruct (length l <? length audio_paths)%nat eqn:E.
  - apply Nat.ltb_lt in E. rewrite length_app, repeat_length. lia.
  - apply Nat.ltb_ge in E. exact E.
Qed.

Lemma transcript_list_nth audio_paths transcripts (i : nat) :
  nth i (transcript_list audio_paths transcripts) None =
  match transcripts with
  | None => None
  | Some ts => nth i ts None
  end.
Proof.
  unfold transcript_list. destruct transcripts as [ts|].
  - destruct (length ts <? length audio_paths)%nat; [|reflexivity].
    destruct (Nat.lt_ge_cases i (length ts)) as [Hi|Hi].
    + now rewrite app_nth1.
    + rewrite app_nth2 by exact Hi. rewrite nth_repeat.
      symmetry. now apply nth_overflow.
  - rewrite repeat_length, Nat.ltb_irrefl. apply nth_repeat.
Qed.

Lemma length_initial_samples audio_paths transcripts :
  length (initial_samples sf_read audio_paths transcripts) = length audio_paths.
Proof.
  unfold initial_samples, enumerate.
  rewrite length_map, enumerate_from_length, length_combine.
  pose proof (transcript_list_length audio_paths transcripts). lia.
Qed.

Lemma nth_error_initial_samples audio_paths transcripts (i : nat) :
  nth_error (initial_samples sf_read audio_paths transcripts) i =
  option_map
    (fun p => mkAudioSampleInfo p (get_audio_duration sf_read p)
                (match transcripts with
                 | None => None
                 | Some ts => nth i ts None
                 end)
                (Some (estimate_snr sf_read p)) (i =? 0)%nat default_weight)
    (nth_error audio_paths i).
Proof.
  unfold initial_samples.
  rewrite nth_error_map, enumerate_nth_error, nth_error_combine.
  destruct (nth_error audio_paths i) as [p|] eqn:Ep; [|reflexivity].
  assert (Hi : (i < length (transcript_list audio_paths transcripts))%nat).
  { pose proof (transcript_list_length audio_paths transcripts).
    assert (i < length audio_paths)%nat
      by (apply nth_error_Some; rewrite Ep; discriminate).
    lia. }
  rewrite (nth_error_nth' _ None Hi). simpl.
  now rewrite transcript_list_nth.
Qed.

Lemma get_audio_duration_unreadable (p : string) (e : exn) :
  sf_read p = Raise e -> get_audio_duration sf_read p = 0.
Proof. intros H. unfold get_audio_duration. rewrite H. reflexivity. Qed.

Lemma estimate_snr_unreadable (p : string) (e : exn) :
  sf_read p = Raise e -> estimate_snr sf_read p = 20.
Proof.
  intros H. unfold estimate_snr, estimate_snr_body. rewrite H. reflexivity.
Qed.

(** The record that [analyze_audio_samples] returns at index [i]. *)
Lemma analyze_nth_error audio_paths transcripts (i : nat) (p : string) :
  nth_error audio_paths i = Some p ->
  exists w b,
    nth_error
      (mark_primary (renorm (weigh (initial_samples sf_read audio_paths transcripts)))) i
    = Some (mkAudioSampleInfo p (get_audio_duration sf_read p)
              (match transcripts with
               | None => None
               | Some ts => nth i ts None
               end)
              (Some (estimate_snr sf_read p)) b w).
Proof.
  intros Hp.
  rewrite nth_error_mark_primary, nth_error_renorm, nth_error_weigh,
    nth_error_initial_samples, Hp.
  simpl. eexists _, _. reflexivity.
Qed.

End AnalyzerFacts.

(** ** Deciding comparisons between concrete reals *)

Ltac decide_with d :=
  first [ destruct d; [|solve [exfalso; lra]]
        | destruct d; [solve [exfalso; lra]|] ].

Ltac decide_reals :=
  repeat
    match goal with
    | |- context [Req_dec_T ?a ?b] => decide_with (Req_dec_T a b)
    | |- context [Rlt_dec ?a ?b] => decide_with (Rlt_dec a b)
    | |- context [Rle_dec ?a ?b] => decide_with (Rle_dec a b)
    end.

(** ** The analyzer: weights *)

Lemma map_fst_combine {A B : Type} (l1 : list A) (l2 : list B) :
  (length l1 <= length l2)%nat -> map fst (combine l1 l2) = l1.
Proof.
  revert l2; induction l1 as [|a l1 IH]; intros l2 H; [reflexivity|].
  destruct l2 as [|b l2]; simpl in *; [lia|].
  rewrite IH by lia. reflexivity.
Qed.

Lemma quality_w_nonneg (s : AudioSampleInfo) : snr_nonneg s -> 0 <= quality_w s.
Proof.
  intros Hs. unfold quality_w. rewrite py_min_Rmin.
  apply Rmin_glb; [lra|].
  pose proof (or_float_nonneg (snr_estimate s) 20 ltac:(lra) Hs). lra.
Qed.

Lemma raw_weight_sum (T : R) (l : list AudioSampleInfo) :
  py_sum (map (raw_weight T) l) =
  0.7 * (py_sum (map duration l) / T) + 0.3 * py_sum (map quality_w l).
Proof.
  induction l as [|s l IH]; simpl.
  - rewrite !py_sum_nil. unfold Rdiv. lra.
  - rewrite !py_sum_cons, IH. unfold raw_weight, quality_w, Rdiv. lra.
Qed.

Lemma quality_sum_nonneg (l : list AudioSampleInfo) :
  Forall snr_nonneg l -> 0 <= py_sum (map quality_w l).
Proof.
  intros H. apply py_sum_nonneg. apply Forall_map.
  revert H. apply Forall_impl. intros s. apply quality_w_nonneg.
Qed.

Lemma map_weight_weigh (l : list AudioSampleInfo) :
  map weight (weigh l) = map (weigh_w l) l.
Proof. unfold weigh. rewrite map_map. reflexivity. Qed.

Lemma map_weight_renorm (l : list AudioSampleInfo) :
  map weight (renorm l) = map (renorm_w l) l.
Proof. unfold renorm. rewrite map_map. reflexivity. Qed.

Lemma map_weight_mark_primary (l : list AudioSampleInfo) :
  map weight (mark_primary l) = map weight l.
Proof.
  unfold mark_primary. rewrite map_map. simpl.
  rewrite <- (map_snd_enumerate_from 0 l) at 2. unfold enumerate.
  rewrite map_map. reflexivity.
Qed.

Lemma map_duration_weigh (l : list AudioSampleInfo) :
  map duration (weigh l) = map duration l.
Proof. unfold weigh. rewrite map_map. reflexivity. Qed.

(** With a positive total duration the raw weights sum to at least 0.7. *)
Lemma weigh_total_pos (l : list AudioSampleInfo) :
  0 < py_sum (map duration l) -> Forall snr_nonneg l ->
  map weight (weigh l) = map (raw_weight (py_sum (map duration l))) l /\
  0.7 <= py_sum (map weight (weigh l)).
Proof.
  intros HT Hq.
  assert (E : map weight (weigh l) = map (raw_weight (py_sum (map duration l))) l).
  { rewrite map_weight_weigh. apply map_ext. intros s. unfold weigh_w.
    destruct (Rlt_dec 0 (py_sum (map duration l))); [reflexivity|contradiction]. }
  split; [exact E|]. rewrite E, raw_weight_sum.
  pose proof (quality_sum_nonneg l Hq).
  replace (py_sum (map duration l) / py_sum (map duration l)) with 1
    by (field; lra).
  lra.
Qed.

Lemma renorm_total_pos (l : list AudioSampleInfo) :
  0 < py_sum (map weight l) ->
  map weight (renorm l) = map (fun s => weight s / py_sum (map weight l)) l.
Proof.
  intros HW. rewrite map_weight_renorm. apply map_ext. intros s.
  unfold renorm_w.
  destruct (Rlt_dec 0 (py_sum (map weight l))); [reflexivity|contradiction].
Qed.

(** Renormalized weights sum to one. *)
Lemma renorm_sum_one (l : list AudioSampleInfo) :
  0 < py_sum (map weight l) -> py_sum (map weight (renorm l)) = 1.
Proof.
  intros HW. rewrite renorm_total_pos by exact HW.
  rewrite (py_sum_map_div weight). field. lra.
Qed.

Lemma renorm_nonneg (l : list AudioSampleInfo) :
  0 < py_sum (map weight l) ->
  Forall (fun s => 0 <= weight s) l ->
  Forall (fun s => 0 <= weight s) (renorm l).
Proof.
  intros HW Hl. unfold renorm. apply Forall_map. simpl.
  revert Hl. apply Forall_impl. intros s Hs. unfold renorm_w.
  destruct (Rlt_dec 0 (py_sum (map weight l))); [|contradiction].
  apply Rmult_le_pos; [exact Hs|]. left. now apply Rinv_0_lt_compat.
Qed.

Lemma weigh_nonneg (l : list AudioSampleInfo) :
  0 < py_sum (map duration l) ->
  Forall snr_nonneg l ->
  Forall (fun s => 0 <= duration s) l ->
  Forall (fun s => 0 <= weight s) (weigh l).
Proof.
  intros HT Hq Hd. unfold weigh. apply Forall_map. simpl.
  rewrite Forall_forall in *. intros s Hs. unfold weigh_w.
  destruct (Rlt_dec 0 (py_sum (map duration l))); [|contradiction].
  unfold raw_weight. fold (quality_w s).
  pose proof (quality_w_nonneg s (Hq s Hs)).
  assert (0 <= duration s / py_sum (map duration l)).
  { apply Rmult_le_pos; [now apply Hd|]. left. now apply Rinv_0_lt_compat. }
  lra.
Qed.

Lemma mark_primary_weights_nonneg (l : list AudioSampleInfo) :
  Forall (fun s => 0 <= weight s) l ->
  Forall (fun s => 0 <= weight s) (mark_primary l).
Proof.
  intros H. rewrite Forall_forall in *. intros s Hs.
  assert (Hw : In (weight s) (map weight (mark_primary l))) by now apply in_map.
  rewrite map_weight_mark_primary in Hw. apply in_map_iff in Hw.
  destruct Hw as (s' & <- & Hs'). now apply H.
Qed.

Section DecodedFacts.

Variable sf_read : string -> result (ndarray * Z).

Lemma estimate_snr_nonneg (p : string) : 0 <= estimate_snr sf_read p.
Proof.
  unfold estimate_snr, estimate_snr_body.
  destruct (sf_read p) as [[data sr]|e]; simpl; [|lra].
  repeat match goal with
         | |- context [if ?c then _ else _] => destruct c; simpl; try lra
         end.
  rewrite py_max_Rmax. apply Rmax_l.
Qed.

Lemma get_audio_duration_nonneg (p : string) :
  rates_positive sf_read -> 0 <= get_audio_duration sf_read p.
Proof.
  intros Hr. unfold get_audio_duration.
  destruct (sf_read p) as [[data sr]|e] eqn:E; simpl; [|lra].
  unfold py_truediv. destruct (Req_dec_T (IZR sr) 0); simpl; [lra|].
  apply Rmult_le_pos; [apply pos_INR|].
  left. apply Rinv_0_lt_compat. apply IZR_lt. now apply (Hr p data).
Qed.

Lemma initial_samples_In audio_paths transcripts (s : AudioSampleInfo) :
  In s (initial_samples sf_read audio_paths transcripts) ->
  exists i p t,
    nth_error audio_paths i = Some p /\
    s = mkAudioSampleInfo p (get_audio_duration sf_read p) t
          (Some (estimate_snr sf_read p)) (i =? 0)%nat default_weight.
Proof.
  intros Hin. apply In_nth_error in Hin. destruct Hin as [i Hi].
  rewrite nth_error_initial_samples in Hi.
  destruct (nth_error audio_paths i) as [p|] eqn:Ep; [|discriminate].
  simpl in Hi. injection Hi as <-. eexists i, p, _. split; [exact Ep|reflexivity].
Qed.

Lemma initial_samples_snr_nonneg audio_paths transcripts :
  Forall snr_nonneg (initial_samples sf_read audio_paths transcripts).
Proof.
  apply Forall_forall. intros s Hs.
  destruct (initial_samples_In _ _ _ Hs) as (i & p & t & _ & ->).
  intros v Hv. simpl in Hv. injection Hv as <-. apply estimate_snr_nonneg.
Qed.

Lemma initial_samples_duration_nonneg audio_paths transcripts :
  rates_positive sf_read ->
  Forall (fun s => 0 <= duration s) (initial_samples sf_read audio_paths transcripts).
Proof.
  intros Hr. apply Forall_forall. intros s Hs.
  destruct (initial_samples_In _ _ _ Hs) as (i & p & t & _ & ->).
  simpl. now apply get_audio_duration_nonneg.
Qed.

Lemma initial_samples_durations audio_paths transcripts :
  map duration (initial_samples sf_read audio_paths transcripts) =
  map (get_audio_duration sf_read) audio_paths.
Proof.
  unfold initial_samples.
  transitivity
    (map (get_audio_duration sf_read)
       (map fst (map snd (enumerate
          (combine audio_paths (transcript_list audio_paths transcripts)))))).
  - rewrite !map_map. reflexivity.
  - unfold enumerate. rewrite map_snd_enumerate_from, map_fst_combine.
    + reflexivity.
    + apply transcript_list_length.
Qed.

Lemma initial_samples_weights audio_paths transcripts :
  map weight (initial_samples sf_read audio_paths transcripts) =
  repeat default_weight (length audio_paths).
Proof.
  rewrite <- (length_initial_samples sf_read audio_paths transcripts).
  assert (H : Forall (fun s => weight s = default_weight)
                (initial_samples sf_read audio_paths transcripts)).
  { apply Forall_forall. intros s Hs.
    destruct (initial_samples_In _ _ _ Hs) as (i & p & t & _ & ->). reflexivity. }
  induction H as [|s l Hs _ IH]; simpl; [reflexivity|].
  now rewrite Hs, IH.
Qed.

End DecodedFacts.

Lemma weigh_total_nonpos (l : list AudioSampleInfo) :
  ~ 0 < py_sum (map duration l) -> weigh l = l.
Proof.
  intros H. unfold weigh. rewrite <- (map_id l) at 2.
  apply map_ext. intros s. unfold weigh_w.
  destruct (Rlt_dec 0 (py_sum (map duration l))); [contradiction|].
  apply set_weight_same.
Qed.

Lemma Forall_of_map_repeat {A B : Type} (f : A -> B) (c : B) (l : list A) :
  map f l = repeat c (length l) -> Forall (fun x => f x = c) l.
Proof.
  induction l as [|x l IH]; simpl; intros H; constructor.
  - now injection H.
  - apply IH. now injection H.
Qed.

(** Default weights, untouched by the weighting, renormalize to [1 / n]. *)
Lemma renorm_default_weights (l : list AudioSampleInfo) :
  map weight l = repeat default_weight (length l) ->
  Forall (fun s => weight s = 1 / INR (length l)) (renorm l).
Proof.
  intros Hw. destruct l as [|s0 l']; [constructor|].
  set (l := s0 :: l') in *.
  assert (HW : py_sum (map weight l) = INR (length l)).
  { rewrite Hw, py_sum_repeat. unfold default_weight. lra. }
  assert (Hpos : 0 < INR (length l)) by (apply lt_0_INR; simpl; lia).
  assert (E : map weight (renorm l) = repeat (1 / INR (length l)) (length (renorm l))).
  { rewrite renorm_total_pos by lra. rewrite length_renorm, HW.
    rewrite <- (map_map weight (fun w => w / INR (length l))), Hw, map_repeat.
    reflexivity. }
  apply Forall_of_map_repeat in E. exact E.
Qed.

(** ** The analyzer: primary selection *)

Lemma In_enumerate {A : Type} (l : list A) (j : nat) (x : A) :
  In (j, x) (enumerate l) <-> nth_error l j = Some x.
Proof.
  split.
  - intros H. apply In_nth_error in H. destruct H as [k Hk].
    rewrite enumerate_nth_error in Hk.
    destruct (nth_error l k) as [y|] eqn:E; [|discriminate].
    simpl in Hk. injection Hk as -> ->. exact E.
  - intros H. apply (nth_error_In _ j).
    rewrite enumerate_nth_error, H. reflexivity.
Qed.

Lemma In_samples_with_transcript (l : list AudioSampleInfo) (j : nat) :
  In j (samples_with_transcript l) <->
  exists s, nth_error l j = Some s /\ has_transcript s = true.
Proof.
  unfold samples_with_transcript. rewrite in_map_iff. split.
  - intros ([k s] & Hk & Hin). simpl in Hk. subst k.
    apply filter_In in Hin. destruct Hin as [Hin Ht].
    apply In_enumerate in Hin. exists s. split; assumption.
  - intros (s & Hs & Ht). exists (j, s). split; [reflexivity|].
    apply filter_In. split; [now apply In_enumerate|exact Ht].
Qed.

Lemma existsb_has_transcript (l : list AudioSampleInfo) :
  existsb has_transcript l = true <-> samples_with_transcript l <> [].
Proof.
  rewrite existsb_exists. split.
  - intros (s & Hin & Ht) Hnil.
    apply In_nth_error in Hin. destruct Hin as [j Hj].
    assert (H : In j (samples_with_transcript l))
      by (apply In_samples_with_transcript; eauto).
    rewrite Hnil in H. exact H.
  - intros Hne. destruct (samples_with_transcript l) as [|j r] eqn:E;
      [contradiction|].
    assert (H : In j (samples_with_transcript l)) by (rewrite E; now left).
    apply In_samples_with_transcript in H. destruct H as (s & Hs & Ht).
    exists s. split; [now apply nth_error_In with j|exact Ht].
Qed.

Lemma In_candidates (l : list AudioSampleInfo) (j : nat) :
  In j (candidates l) <->
  exists s, nth_error l j = Some s /\ eligible l s.
Proof.
  unfold candidates, eligible.
  destruct (samples_with_transcript l) as [|c cs] eqn:E.
  - assert (Hno : existsb has_transcript l <> true).
    { intros H. apply existsb_has_transcript in H. now apply H. }
    rewrite in_seq. split.
    + intros [_ Hj]. simpl in Hj.
      destruct (nth_error l j) as [s|] eqn:Es.
      * exists s. split; [reflexivity|]. intros H. contradiction.
      * apply nth_error_None in Es. lia.
    + intros (s & Hs & _). split; [lia|]. simpl.
      apply nth_error_Some. rewrite Hs. discriminate.
  - assert (Hyes : existsb has_transcript l = true).
    { apply existsb_has_transcript. rewrite E. discriminate. }
    rewrite <- E, In_samples_with_transcript. split.
    + intros (s & Hs & Ht). exists s. split; [exact Hs|]. intros _. exact Ht.
    + intros (s & Hs & Ht). exists s. split; [exact Hs|]. now apply Ht.
Qed.

Lemma best_index_in (l : list AudioSampleInfo) :
  l <> [] -> In (best_index l) (candidates l).
Proof.
  intros Hne. unfold best_index.
  pose proof (candidates_nonempty l Hne) as Hc.
  destruct (candidates l) as [|c cs]; [contradiction|].
  apply max_fold_in.
Qed.


Lemma has_transcript_set_is_primary s b :
  has_transcript (set_is_primary s b) = has_transcript s.
Proof. reflexivity. Qed.




(** Equality of concrete record lists, up to arithmetic on the reals. *)
Ltac records_eq :=
  repeat
    match goal with
    | |- _ :: _ = _ :: _ => f_equal
    | |- mkAudioSampleInfo _ _ _ _ _ _ = mkAudioSampleInfo _ _ _ _ _ _ => f_equal
    end;
  try reflexivity; try lra.

(** ** Concrete decodings *)

Arguments rms_of : simpl never.
Lemma rms_of_ones2 : rms_of [1; 1] = 1.
Proof.
  unfold rms_of, mean, py_sum.
  match goal with |- sqrt ?x = _ => replace x with 1 by (simpl; lra) end.
  apply sqrt_1.
Qed.
Lemma py_int_small (x : R) : 0 <= x < 1 -> py_int x = 0%Z.
Proof.
  intros H. unfold py_int. destruct (Rle_dec 0 x); [|lra].
  symmetry. apply Int_part_spec. simpl. lra.
Qed.
Lemma voice_snr : estimate_snr silence_and_voice "voice.wav" = 20.
Proof.
  unfold estimate_snr, estimate_snr_body, silence_and_voice. simpl.
  rewrite rms_of_ones2. destruct (Rlt_dec 1 1e-10); [lra|].
  rewrite py_int_small by lra. reflexivity.
Qed.

Lemma has_transcript_of (s : AudioSampleInfo) (t : string) :
  transcript s = Some t -> (str_truthy t && str_truthy (strip t))%bool = true ->
  has_transcript s = true.
Proof. intros H1 H2. unfold has_transcript. now rewrite H1. Qed.

(** ** torch: norms and normalization *)

Lemma sumsq_nonneg (v : list R) : 0 <= py_sum (map (fun x => x * x) v).
Proof.
  apply py_sum_nonneg. apply Forall_map. apply Forall_forall.
  intros x _. simpl. nra.
Qed.

Lemma sumsq_scale (c : R) (v : list R) :
  c <> 0 ->
  py_sum (map (fun x => x * x) (map (fun x => x / c) v)) =
  py_sum (map (fun x => x * x) v) / (c * c).
Proof.
  intros Hc. induction v as [|x v IH]; simpl.
  - rewrite py_sum_nil. unfold Rdiv. lra.
  - rewrite !py_sum_cons, IH. field. exact Hc.
Qed.

Lemma norm_nonneg (v : list R) : 0 <= Torch.norm v.
Proof. unfold Torch.norm. apply sqrt_pos. Qed.

Lemma norm_scale (c : R) (v : list R) :
  0 < c -> Torch.norm (map (fun x => x / c) v) = Torch.norm v / c.
Proof.
  intros Hc. unfold Torch.norm.
  rewrite sumsq_scale by lra.
  rewrite sqrt_div_alt by nra.
  rewrite sqrt_square by lra. reflexivity.
Qed.

Lemma eps_pos : 0 < Torch.eps.
Proof. unfold Torch.eps. lra. Qed.

Lemma normalize_denominator_pos (v : list R) : 0 < Rmax (Torch.norm v) Torch.eps.
Proof.
  pose proof eps_pos. pose proof (Rmax_r (Torch.norm v) Torch.eps). lra.
Qed.

Lemma norm_normalize (t : Torch.tensor) :
  Torch.norm (Torch.values (Torch.normalize t)) =
  Torch.norm (Torch.values t) / Rmax (Torch.norm (Torch.values t)) Torch.eps.
Proof.
  unfold Torch.normalize. simpl.
  apply norm_scale. apply normalize_denominator_pos.
Qed.

(** A normalized tensor never has a norm above 1. *)
Lemma norm_normalize_le_1 (t : Torch.tensor) :
  Torch.norm (Torch.values (Torch.normalize t)) <= 1.
Proof.
  rewrite norm_normalize.
  pose proof (normalize_denominator_pos (Torch.values t)) as Hd.
  pose proof (Rmax_l (Torch.norm (Torch.values t)) Torch.eps) as Hl.
  apply Rmult_le_reg_r with (Rmax (Torch.norm (Torch.values t)) Torch.eps);
    [exact Hd|].
  unfold Rdiv. rewrite Rmult_assoc, Rinv_l by lra. lra.
Qed.

(** It has norm 1 as soon as the input's norm reaches [eps]. *)
Lemma norm_normalize_unit (t : Torch.tensor) :
  Torch.eps <= Torch.norm (Torch.values t) ->
  Torch.norm (Torch.values (Torch.normalize t)) = 1.
Proof.
  intros H. rewrite norm_normalize, Rmax_left by exact H.
  pose proof eps_pos. field. lra.
Qed.

(** The zero tensor is left as it is. *)
Lemma norm_zeros (n : nat) : Torch.norm (repeat 0 n) = 0.
Proof.
  unfold Torch.norm. rewrite map_repeat, py_sum_repeat.
  replace (INR n * (0 * 0)) with 0 by lra. apply sqrt_0.
Qed.

Lemma normalize_direction (t : Torch.tensor) :
  exists c, 0 < c /\
    Torch.values (Torch.normalize t) = map (fun x => c * x) (Torch.values t).
Proof.
  exists (/ Rmax (Torch.norm (Torch.values t)) Torch.eps). split.
  - apply Rinv_0_lt_compat, normalize_denominator_pos.
  - unfold Torch.normalize. simpl. apply map_ext. intros x. unfold Rdiv. lra.
Qed.

Lemma normalize_length (t : Torch.tensor) :
  length (Torch.values (Torch.normalize t)) = length (Torch.values t).
Proof. unfold Torch.normalize. simpl. apply length_map. Qed.

(** ** The fuser *)

Lemma stack_ok (ts : list Torch.tensor) :
  ts <> [] -> same_shape ts -> Torch.stack ts = Ok ts.
Proof.
  intros Hne Hs. destruct ts as [|t r]; [contradiction|].
  unfold Torch.stack.
  assert (H : forallb (fun u => (length (Torch.values u) =? length (Torch.values t))%nat) r
              = true).
  { apply forallb_forall. intros u Hu. apply Nat.eqb_eq.
    apply Hs; [right; exact Hu|left; reflexivity]. }
  now rewrite H.
Qed.

Lemma same_shape_normed (d : Torch.device) (embeddings : list Torch.tensor) :
  same_shape embeddings -> same_shape (normed_embeddings d embeddings).
Proof.
  intros Hs t u Ht Hu. unfold normed_embeddings in *.
  apply in_map_iff in Ht. destruct Ht as (t0 & <- & Ht0).
  apply in_map_iff in Hu. destruct Hu as (u0 & <- & Hu0).
  rewrite !normalize_length. simpl. now apply Hs.
Qed.

Lemma filter_none {A : Type} (f : A -> bool) (l : list A) :
  (forall x, In x l -> f x = false) -> filter f l = [].
Proof.
  induction l as [|x l IH]; intros H; simpl; [reflexivity|].
  rewrite (H x (or_introl eq_refl)). apply IH. intros y Hy. apply H. now right.
Qed.

Lemma is_outlier_true (thr : R) (centroid emb : Torch.tensor) :
  0 < thr -> Torch.dot emb centroid < thr -> is_outlier thr centroid emb = true.
Proof.
  intros H1 H2. unfold is_outlier.
  destruct (Rlt_dec 0 thr); [|contradiction].
  destruct (Rlt_dec (Torch.dot emb centroid) thr); [reflexivity|contradiction].
Qed.

Lemma fuse_valid_ok (es : list Torch.tensor) (ws : list R) (e0 : Torch.tensor)
    (rest : list Torch.tensor) :
  es = e0 :: rest ->
  py_sum ws <> 0 ->
  fuse_valid es ws =
  Ok (Torch.normalize
        (weighted_sum es (map (fun w => w / py_sum ws) ws) (Torch.zeros_like e0))).
Proof.
  intros -> Hsum. unfold fuse_valid.
  rewrite (mapM_ok_map _ (fun w => w / py_sum ws))
    by (intros w _; now apply py_truediv_ok).
  reflexivity.
Qed.

(** Weights that sum to zero cannot be normalized: the first division
    raises. *)
Lemma fuse_valid_zero_sum (es : list Torch.tensor) (ws : list R) :
  ws <> [] -> py_sum ws = 0 -> fuse_valid es ws = Raise ZeroDivisionError.
Proof.
  intros Hne Hsum. unfold fuse_valid. rewrite Hsum.
  destruct ws as [|w ws]; [contradiction|].
  rewrite (mapM_raise_head _ w ws ZeroDivisionError) by apply py_truediv_zero.
  reflexivity.
Qed.

(** The fuser on two or more embeddings of one dimension. *)
Lemma combine_speaker_embeddings_many e1 e2 rest weights thr device :
  same_shape (e1 :: e2 :: rest) ->
  let normed := normed_embeddings (target_device device e1) (e1 :: e2 :: rest) in
  let ws := weights_or_default weights (length normed) in
  let centroid := Torch.normalize (Torch.mean0 normed) in
  let valid := filter (fun p => negb (is_outlier thr centroid (fst p)))
                      (combine normed ws) in
  combine_speaker_embeddings (e1 :: e2 :: rest) weights thr device =
  match valid with
  | [] => fuse_valid normed ws
  | _ :: _ => fuse_valid (map fst valid) (map snd valid)
  end.
Proof.
  intros Hs normed ws centroid valid.
  assert (Hstack : Torch.stack normed = Ok normed).
  { apply stack_ok; [discriminate|now apply same_shape_normed]. }
  transitivity
    (match map fst valid with
     | [] => fuse_valid normed ws
     | _ :: _ => fuse_valid (map fst valid) (map snd valid)
     end).
  - unfold combine_speaker_embeddings.
    change (map (fun e => Torch.normalize (Torch.float (Torch.to e
                   (Some match device with
                         | None => Torch.dev e1
                         | Some d => d
                         end))))
                (e1 :: e2 :: rest)) with normed.
    rewrite Hstack. reflexivity.
  - destruct valid; reflexivity.
Qed.

Lemma py_sum_zeros (ws : list R) : Forall (fun w => w = 0) ws -> py_sum ws = 0.
Proof.
  induction 1 as [|w ws Hw _ IH].
  - apply py_sum_nil.
  - rewrite py_sum_cons, Hw, IH. lra.
Qed.

(** Two or more embeddings with weights that are all zero: whichever
    embeddings survive the rejection, their weights sum to zero and the
    normalization of the weights raises. *)
Lemma combine_zero_weights_raise e1 e2 rest ws thr device :
  same_shape (e1 :: e2 :: rest) ->
  ws <> [] ->
  Forall (fun w => w = 0) ws ->
  combine_speaker_embeddings (e1 :: e2 :: rest) (Some ws) thr device
  = Raise ZeroDivisionError.
Proof.
  intros Hs Hne H0. rewrite combine_speaker_embeddings_many by exact Hs.
  cbv zeta. unfold weights_or_default.
  match goal with
  | |- match ?v with _ => _ end = _ => destruct v as [|p valid] eqn:Ev
  end.
  - apply fuse_valid_zero_sum; [exact Hne|now apply py_sum_zeros].
  - apply fuse_valid_zero_sum; [discriminate|].
    apply py_sum_zeros. apply Forall_forall. intros w Hw.
    apply in_map_iff in Hw. destruct Hw as ([e w'] & Hw' & Hin).
    simpl in Hw'. subst w'. rewrite <- Ev in Hin.
    apply filter_In in Hin. destruct Hin as [Hin _].
    apply in_combine_r in Hin. rewrite Forall_forall in H0. now apply H0.
Qed.

Lemma mapM_truediv_outcome (t : R) (ws : list R) :
  (exists vs, mapM (fun w => py_truediv w t) ws = Ok vs) \/
  mapM (fun w => py_truediv w t) ws = Raise ZeroDivisionError.
Proof.
  destruct (Req_dec_T t 0) as [->|Ht].
  - destruct ws as [|w ws]; [left; now exists []|].
    right. apply mapM_raise_head, py_truediv_zero.
  - left. exists (map (fun w => w / t) ws).
    apply mapM_ok_map. intros w _. now apply py_truediv_ok.
Qed.

Lemma fuse_valid_no_value_error es ws msg :
  fuse_valid es ws <> Raise (ValueError msg).
Proof.
  unfold fuse_valid.
  destruct (mapM_truediv_outcome (py_sum ws) ws) as [[vs ->]| ->]; simpl.
  - destruct es; discriminate.
  - discriminate.
Qed.

(** The invalid-input error is raised for the empty sequence and for no
    other input. *)
Lemma value_error_iff_empty embeddings weights thr device :
  (exists msg, combine_speaker_embeddings embeddings weights thr device
               = Raise (ValueError msg))
  <-> embeddings = [].
Proof.
  split.
  - intros [msg H]. destruct embeddings as [|e1 [|e2 rest]];
      [reflexivity|discriminate|exfalso].
    unfold combine_speaker_embeddings in H.
    match type of H with
    | bind ?s _ = _ => destruct s as [stacked|e] eqn:Es
    end.
    + simpl in H.
      match type of H with
      | match ?v with _ => _ end = _ => destruct v
      end; now apply fuse_valid_no_value_error in H.
    + simpl in H. injection H as ->.
      unfold Torch.stack in Es. simpl in Es.
      match type of Es with
      | (if ?c then _ else _) = _ => destruct c
      end; discriminate.
  - intros ->. eexists. reflexivity.
Qed.

(** ** Concrete tensors *)

Lemma norm_singleton_1 : Torch.norm [1] = 1.
Proof.
  unfold Torch.norm, py_sum. simpl.
  replace (0 + 1 * 1) with 1 by lra. apply sqrt_1.
Qed.

Lemma norm_singleton_m1 : Torch.norm [-1] = 1.
Proof.
  unfold Torch.norm, py_sum. simpl.
  replace (0 + -1 * -1) with 1 by lra. apply sqrt_1.
Qed.

Lemma norm_north : Torch.norm [0; 1] = 1.
Proof.
  unfold Torch.norm, py_sum. simpl.
  replace (0 + 0 * 0 + 1 * 1) with 1 by lra. apply sqrt_1.
Qed.

Lemma norm_singleton_0 (x : R) : x = 0 -> Torch.norm [x] = 0.
Proof.
  intros ->. unfold Torch.norm, py_sum. simpl.
  replace (0 + 0 * 0) with 0 by lra. apply sqrt_0.
Qed.

Lemma normalize_of_unit (t : Torch.tensor) :
  Torch.norm (Torch.values t) = 1 ->
  Torch.normalize t = Torch.mkTensor (map (fun x => x / 1) (Torch.values t)) (Torch.dev t).
Proof.
  intros H. unfold Torch.normalize. rewrite H, Rmax_left; [reflexivity|].
  unfold Torch.eps. lra.
Qed.

Lemma normalize_of_zero (t : Torch.tensor) :
  Torch.norm (Torch.values t) = 0 ->
  Torch.normalize t =
  Torch.mkTensor (map (fun x => x / Torch.eps) (Torch.values t)) (Torch.dev t).
Proof.
  intros H. unfold Torch.normalize. rewrite H, Rmax_right; [reflexivity|].
  unfold Torch.eps. lra.
Qed.

(** When the rejection keeps nothing, all normalized embeddings are fused
    with the original weights. *)
Lemma fallback_when_all_rejected e1 e2 rest weights thr device :
  let embeddings := e1 :: e2 :: rest in
  let normed := normed_embeddings (target_device device e1) embeddings in
  let ws := weights_or_default weights (length normed) in
  let centroid := Torch.normalize (Torch.mean0 normed) in
  same_shape embeddings ->
  0 < thr ->
  Forall (fun emb => Torch.dot emb centroid < thr) normed ->
  combine_speaker_embeddings embeddings weights thr device = fuse_valid normed ws.
Proof.
  intros embeddings normed ws centroid Hs Hthr Hall.
  unfold embeddings. rewrite combine_speaker_embeddings_many by exact Hs.
  cbv zeta. fold embeddings normed ws centroid.
  rewrite filter_none; [reflexivity|].
  intros [emb w] Hin. simpl.
  apply in_combine_l in Hin. rewrite Forall_forall in Hall.
  rewrite is_outlier_true; [reflexivity|exact Hthr|now apply Hall].
Qed.

Lemma normed_east_west :
  normed_embeddings Torch.Cpu [east; west]
  = [Torch.mkTensor [1 / 1] Torch.Cpu; Torch.mkTensor [-1 / 1] Torch.Cpu].
Proof.
  unfold normed_embeddings, east, west.
  cbn [map Torch.to Torch.float Torch.values].
  rewrite (normalize_of_unit (Torch.mkTensor [1] Torch.Cpu))
    by apply norm_singleton_1.
  rewrite (normalize_of_unit (Torch.mkTensor [-1] Torch.Cpu))
    by apply norm_singleton_m1.
  reflexivity.
Qed.

Lemma centroid_east_west :
  Torch.normalize (Torch.mean0 (normed_embeddings Torch.Cpu [east; west]))
  = Torch.mkTensor [(0 + 1 / 1 + -1 / 1) / (1 + 1) / Torch.eps] Torch.Cpu.
Proof.
  rewrite normed_east_west, normalize_of_zero.
  - reflexivity.
  - cbn. apply norm_singleton_0. lra.
Qed.

Lemma east_west_same_shape : same_shape [east; west].
Proof. intros t u [<-|[<-|[]]] [<-|[<-|[]]]; reflexivity. Qed.

(** Both have similarity 0 to their centroid, the zero vector. *)
Lemma east_west_all_below :
  Forall (fun emb =>
            Torch.dot emb
              (Torch.normalize
                 (Torch.mean0 (normed_embeddings Torch.Cpu [east; west]))) < 0.7)
         (normed_embeddings Torch.Cpu [east; west]).
Proof.
  rewrite centroid_east_west, normed_east_west.
  unfold Torch.dot, py_sum, Torch.eps.
  constructor; [cbn; lra|constructor; [cbn; lra|constructor]].
Qed.

Lemma default_weights_sum_2 : py_sum (repeat 1 2) <> 0.
Proof. unfold py_sum. simpl. lra. Qed.

(** ** The prompt assembler *)




(** ** The quality estimate against the specification's wording *)

Lemma py_int_fiftieth (sr : Z) :
  (0 < sr)%Z -> py_int (IZR sr * 0.02) = (sr / 50)%Z.
Proof.
  intros Hsr. unfold py_int.
  assert (Hpos : 0 < IZR sr) by now apply IZR_lt.
  destruct (Rle_dec 0 (IZR sr * 0.02)); [|lra].
  symmetry. apply Int_part_spec.
  pose proof (Z.div_mod sr 50 ltac:(lia)) as Hdm.
  pose proof (Z.mod_pos_bound sr 50 ltac:(lia)) as [Hm0 Hm50].
  apply (f_equal IZR) in Hdm. rewrite plus_IZR, mult_IZR in Hdm.
  apply IZR_le in Hm0. apply IZR_lt in Hm50.
  lra.
Qed.

Lemma rms_of_nil : rms_of [] = 0.
Proof.
  unfold rms_of, mean. simpl. rewrite py_sum_nil.
  unfold Rdiv. rewrite Rmult_0_l. apply sqrt_0.
Qed.

Lemma spec_rms_eq (xs : list R) : Spec.rms xs = rms_of xs.
Proof.
  destruct xs; [symmetry; apply rms_of_nil|reflexivity].
Qed.

Lemma slice_from_0 {A : Type} (xs : list A) (n : nat) :
  slice xs (0 * n) ((0 + 1) * n) = firstn n xs.
Proof. unfold slice. simpl. now rewrite Nat.add_0_r, Nat.sub_0_r. Qed.

Lemma slice_shift {A : Type} (xs : list A) (i n : nat) :
  slice xs (S i * n) ((S i + 1) * n) = slice (skipn n xs) (i * n) ((i + 1) * n).
Proof.
  unfold slice. rewrite skipn_skipn.
  replace ((S i + 1) * n - S i * n)%nat with ((i + 1) * n - i * n)%nat by lia.
  replace (i * n + n)%nat with (S i * n)%nat by lia.
  reflexivity.
Qed.

(** The frames of the specification are the slices the code takes. *)
Lemma chunks_slices (fuel size : nat) (xs : list R) :
  (0 < size)%nat -> (length xs <= fuel)%nat ->
  Spec.chunks fuel size xs =
  map (fun i => slice xs (i * size) ((i + 1) * size)) (seq 0 (length xs / size)).
Proof.
  intros Hsize. revert xs. induction fuel as [|fuel IH]; intros xs Hlen.
  - assert (length xs = 0%nat) as -> by lia.
    rewrite Nat.div_small by exact Hsize. reflexivity.
  - simpl. destruct (length xs <? size)%nat eqn:E.
    + apply Nat.ltb_lt in E. rewrite Nat.div_small by exact E. reflexivity.
    + apply Nat.ltb_ge in E.
      assert (Hdiv : (length xs / size = S (length (skipn size xs) / size))%nat).
      { rewrite length_skipn.
        replace (length xs) with ((length xs - size) + 1 * size)%nat at 1 by lia.
        rewrite Nat.div_add by lia. lia. }
      rewrite Hdiv. cbn [seq map]. rewrite slice_from_0. f_equal.
      rewrite <- seq_shift, map_map, IH by (rewrite length_skipn; lia).
      apply map_ext. intros i. symmetry. apply slice_shift.
Qed.

Lemma frames_slices (size : nat) (xs : list R) :
  (0 < size)%nat ->
  Spec.frames size xs =
  map (fun i => slice xs (i * size) ((i + 1) * size)) (seq 0 (length xs / size)).
Proof. intros H. unfold Spec.frames. now apply chunks_slices. Qed.

Lemma frame_length_eq (sr : Z) :
  (0 < sr)%Z ->
  Z.to_nat (Z.max 1 (py_int (IZR sr * 0.02))) = Spec.frame_length sr /\
  (0 < Spec.frame_length sr)%nat.
Proof.
  intros H. rewrite py_int_fiftieth by exact H. unfold Spec.frame_length.
  split; [reflexivity|lia].
Qed.

Lemma clamp_eq (x : R) : py_max 0 (py_min 60 x) = Spec.clamp 0 60 x.
Proof. unfold Spec.clamp. now rewrite py_min_Rmin, py_max_Rmax. Qed.

Lemma to_mono_empty (data : ndarray) : len data = 0%nat -> Spec.to_mono data = [].
Proof.
  destruct data as [l|rows]; simpl; intros H;
    apply length_zero_iff_nil in H; now subst.
Qed.

Lemma rms_of_singleton_1 : rms_of [1] = 1.
Proof.
  unfold rms_of, mean, py_sum.
  match goal with |- sqrt ?x = _ => replace x with 1 by (simpl; lra) end.
  apply sqrt_1.
Qed.

Lemma rms_of_ones10 : rms_of (repeat 1 10) = 1.
Proof.
  unfold rms_of, mean. rewrite map_repeat, py_sum_repeat, repeat_length.
  match goal with |- sqrt ?x = _ => replace x with 1 by (simpl; lra) end.
  apply sqrt_1.
Qed.

Lemma percentile_ones10 : percentile (repeat 1 10) 10 = 1.
Proof.
  unfold percentile.
  assert (Hs : sort (repeat 1 10) = repeat 1 10).
  { unfold sort. repeat (progress cbn; decide_reals). reflexivity. }
  rewrite Hs, repeat_length.
  assert (Hi : Int_part (10 / 100 * INR (10 - 1)) = 0%Z).
  { symmetry. apply Int_part_spec. simpl. lra. }
  rewrite Hi. cbn. lra.
Qed.

(** A steady tone of ten 20 ms frames: every frame has the RMS of the
    whole signal, the noise floor equals it, and the estimate is
    [20 * log10 1 = 0]. *)
Example steady_tone_snr : estimate_snr steady_tone "tone.wav" = 0.
Proof.
  unfold estimate_snr, estimate_snr_body, steady_tone.
  cbn [bind len]. rewrite !repeat_length.
  cbn [Nat.eqb Z.leb Z.compare orb].
  cbv zeta. rewrite rms_of_ones10.
  destruct (Rlt_dec 1 1e-10); [lra|].
  rewrite py_int_fiftieth by lia.
  change (Z.to_nat (Z.max 1 (50 / 50))) with 1%nat.
  change (10 / 1)%nat with 10%nat. cbn [Nat.ltb Nat.leb].
  assert (Hf : map (fun i => rms_of (slice (repeat 1 10) (i * 1) ((i + 1) * 1)))
                   (seq 0 10) = repeat 1 10).
  { cbn -[rms_of]. now rewrite rms_of_singleton_1. }
  rewrite Hf.
  rewrite percentile_ones10.
  destruct (Rlt_dec 1 1e-10); [lra|].
  cbn [try_except]. unfold log10.
  replace (1 / 1) with 1 by lra. rewrite ln_1.
  unfold py_max, py_min. decide_reals. lra.
Qed.

(** The scenario's raw weights are 0.1917, 0.4583 and 0.6125 (here as
    fractions); renormalized they increase with the index and sum to 1. *)
Example scenario_weights :
  exists raw final,
    compute_weights scenario = Ok raw /\
    map weight raw = [23 / 120; 11 / 24; 49 / 80] /\
    normalize_weights raw = Ok final /\
    map weight final = [46 / 303; 110 / 303; 147 / 303].
Proof.
  exists (weigh scenario), (renorm (weigh scenario)).
  split; [apply compute_weights_eq|].
  assert (E1 : map weight (weigh scenario) = [23 / 120; 11 / 24; 49 / 80]).
  { unfold weigh, weigh_w, raw_weight, quality_w, py_min, or_float, py_sum, scenario.
    cbn. decide_reals. records_eq. }
  split; [exact E1|]. split; [apply normalize_weights_eq|].
  rewrite map_weight_renorm. unfold renorm_w. rewrite E1.
  unfold weigh, weigh_w, raw_weight, quality_w, py_min, or_float, py_sum, scenario.
  cbn. decide_reals. records_eq.
Qed.

(** * The claims *)

(** C3. [analyze_audio_samples] returns for every decoder, every list of
    paths and every list of transcripts, with one record per path; the
    record of path [i] carries that path and transcript [i], or [None]
    where the transcripts are missing or run out; and the record of a path
    that cannot be decoded has duration 0 and the 20 dB quality fallback. *)
Theorem analyze_audio_samples_never_raises :
  forall (sf_read : string -> result (ndarray * Z))
         (audio_paths : list string)
         (transcripts : option (list (option string))),
  exists samples,
    analyze_audio_samples sf_read audio_paths transcripts = Ok samples /\
    length samples = length audio_paths /\
    forall (i : nat) (p : string),
      nth_error audio_paths i = Some p ->
      exists s,
        nth_error samples i = Some s /\
        path s = p /\
        transcript s =
          match transcripts with
          | None => None
          | Some ts => nth i ts None
          end /\
        forall e, sf_read p = Raise e ->
                  duration s = 0 /\ snr_estimate s = Some 20.
Proof.
  intros sf_read audio_paths transcripts.
  eexists. split; [apply analyze_audio_samples_eq|]. split.
  - now rewrite length_mark_primary, length_renorm, length_weigh,
      length_initial_samples.
  - intros i p Hp.
    destruct (analyze_nth_error sf_read audio_paths transcripts i p Hp)
      as (w & b & Hs).
    eexists. split; [exact Hs|]. simpl. repeat split.
    + now apply get_audio_duration_unreadable with e.
    + f_equal. now apply estimate_snr_unreadable with e.
Qed.

Lemma analyze_audio_samples_never_raises_witness :
  exists s,
    analyze_audio_samples unreadable ["missing.wav"%string] (Some []) = Ok [s] /\
    path s = "missing.wav"%string /\
    transcript s = None /\
    duration s = 0 /\
    snr_estimate s = Some 20.
Proof.
  destruct (analyze_audio_samples_never_raises unreadable
              ["missing.wav"%string] (Some []))
    as (samples & Heq & Hlen & Hrec).
  destruct (Hrec 0%nat "missing.wav"%string eq_refl)
    as (s & Hs & Hpath & Htr & Hbad).
  destruct (Hbad (RuntimeError "unreadable") eq_refl) as [Hd Hq].
  exists s. repeat split; try assumption.
  destruct samples as [|s' [|s'' rest]]; simpl in Hlen, Hs; try discriminate.
  injection Hs as ->. exact Heq.
Defined.

(** C2, as amended.  When the durations sum to 0 the weighting loop is
    skipped, every record keeps the default weight 1.0, the raw sum is the
    number of records, and renormalization makes every weight [1 / n]. *)
Theorem analyze_zero_duration_uniform_weights :
  forall (sf_read : string -> result (ndarray * Z))
         (audio_paths : list string)
         (transcripts : option (list (option string))),
    py_sum (map (get_audio_duration sf_read) audio_paths) = 0 ->
    exists samples,
      analyze_audio_samples sf_read audio_paths transcripts = Ok samples /\
      length samples = length audio_paths /\
      Forall (fun s => weight s = 1 / INR (length audio_paths)) samples.
Proof.
  intros sf_read audio_paths transcripts HT.
  eexists. split; [apply analyze_audio_samples_eq|].
  set (init := initial_samples sf_read audio_paths transcripts).
  assert (Hlen : length init = length audio_paths)
    by apply length_initial_samples.
  split.
  - now rewrite length_mark_primary, length_renorm, length_weigh.
  - rewrite weigh_total_nonpos
      by (unfold init; rewrite initial_samples_durations; lra).
    assert (H : Forall (fun s => weight s = 1 / INR (length init)) (renorm init)).
    { apply renorm_default_weights. unfold init at 1.
      rewrite initial_samples_weights. now rewrite Hlen. }
    rewrite Hlen in H.
    apply Forall_forall. intros s Hs.
    assert (Hw : In (weight s) (map weight (mark_primary (renorm init))))
      by now apply in_map.
    rewrite map_weight_mark_primary in Hw. apply in_map_iff in Hw.
    destruct Hw as (s' & <- & Hs'). rewrite Forall_forall in H. now apply H.
Qed.

Lemma analyze_zero_duration_uniform_weights_witness :
  py_sum (map (get_audio_duration unreadable) ["a.wav"%string; "b.wav"%string]) = 0 /\
  exists samples,
    analyze_audio_samples unreadable ["a.wav"%string; "b.wav"%string] None
      = Ok samples /\
    length samples = 2%nat /\
    Forall (fun s => weight s = 1 / INR 2) samples.
Proof.
  assert (H : py_sum (map (get_audio_duration unreadable)
                        ["a.wav"%string; "b.wav"%string]) = 0).
  { unfold py_sum, get_audio_duration, unreadable. simpl. lra. }
  split; [exact H|].
  exact (analyze_zero_duration_uniform_weights unreadable
           ["a.wav"%string; "b.wav"%string] None H).
Defined.

(** C2, as stated, fails: one unreadable file has total duration 0, and
    its record leaves the analyzer with weight 1, not 0. *)
Lemma zero_duration_weights_are_not_zero :
  exists s,
    analyze_audio_samples unreadable ["a.wav"%string] None = Ok [s] /\
    py_sum (map duration [s]) = 0 /\
    weight s = 1 /\
    weight s <> 0.
Proof.
  rewrite analyze_audio_samples_eq.
  unfold mark_primary, best_index, candidates, samples_with_transcript,
    renorm, renorm_w, weigh, weigh_w.
  cbn. unfold py_sum, default_weight. cbn.
  decide_reals.
  eexists. split; [reflexivity|]. cbn. repeat split; lra.
Qed.

(** C4. With positive sample rates and a positive total duration, the
    analyzer's weights are non-negative and sum to 1 (exactly, over the
    reals; hence within 1e-6). *)
Theorem analyze_weights_sum_to_one :
  forall (sf_read : string -> result (ndarray * Z))
         (audio_paths : list string)
         (transcripts : option (list (option string))),
    rates_positive sf_read ->
    0 < py_sum (map (get_audio_duration sf_read) audio_paths) ->
    exists samples,
      analyze_audio_samples sf_read audio_paths transcripts = Ok samples /\
      Forall (fun s => 0 <= weight s) samples /\
      py_sum (map weight samples) = 1 /\
      Rabs (py_sum (map weight samples) - 1) <= 1e-6.
Proof.
  intros sf_read audio_paths transcripts Hr HT.
  eexists. split; [apply analyze_audio_samples_eq|].
  set (init := initial_samples sf_read audio_paths transcripts).
  assert (HT' : 0 < py_sum (map duration init))
    by (unfold init; now rewrite initial_samples_durations).
  assert (Hq : Forall snr_nonneg init) by apply initial_samples_snr_nonneg.
  assert (Hd : Forall (fun s => 0 <= duration s) init)
    by now apply initial_samples_duration_nonneg.
  destruct (weigh_total_pos init HT' Hq) as [_ HW].
  assert (HWpos : 0 < py_sum (map weight (weigh init))) by lra.
  assert (Hsum : py_sum (map weight (mark_primary (renorm (weigh init)))) = 1).
  { rewrite map_weight_mark_primary. now apply renorm_sum_one. }
  split; [|split; [exact Hsum|]].
  - apply mark_primary_weights_nonneg, renorm_nonneg; [exact HWpos|].
    now apply weigh_nonneg.
  - rewrite Hsum. replace (1 - 1) with 0 by lra. rewrite Rabs_R0. lra.
Qed.

Lemma analyze_weights_sum_to_one_witness :
  rates_positive two_seconds /\
  0 < py_sum (map (get_audio_duration two_seconds) ["a.wav"%string; "b.wav"%string]) /\
  exists samples,
    analyze_audio_samples two_seconds ["a.wav"%string; "b.wav"%string] None
      = Ok samples /\
    Forall (fun s => 0 <= weight s) samples /\
    py_sum (map weight samples) = 1 /\
    Rabs (py_sum (map weight samples) - 1) <= 1e-6.
Proof.
  assert (Hr : rates_positive two_seconds).
  { intros p data sr H. unfold two_seconds in H. injection H as _ <-. lia. }
  assert (HT : 0 < py_sum (map (get_audio_duration two_seconds)
                             ["a.wav"%string; "b.wav"%string])).
  { unfold py_sum, get_audio_duration, two_seconds, py_truediv. simpl.
    decide_reals. simpl. lra. }
  split; [exact Hr|]. split; [exact HT|].
  exact (analyze_weights_sum_to_one two_seconds
           ["a.wav"%string; "b.wav"%string] None Hr HT).
Defined.




(** C10. A quality estimate of exactly 0 is falsy: the quality weight and
    the primary-selection key both use the 20 dB fallback for it, as they
    do for an absent estimate, giving the weight [min(1, 20/40) = 0.5] and
    the key [duration * 20]. *)
Theorem zero_estimate_uses_fallback :
  forall s : AudioSampleInfo,
    snr_estimate s = Some 0 ->
    or_float (snr_estimate s) 20 = or_float None 20 /\
    quality_weight s = Ok (py_min 1 (20 / 40)) /\
    py_min 1 (20 / 40) = 0.5 /\
    primary_key s = duration s * 20.
Proof.
  intros s Hs. unfold primary_key. rewrite quality_weight_ok, Hs, or_float_zero.
  repeat split. unfold py_min. decide_reals. lra.
Qed.

Lemma zero_estimate_uses_fallback_witness :
  let s := mkAudioSampleInfo "silence.wav" 3 None (Some 0) false 1 in
  snr_estimate s = Some 0 /\
  quality_weight s = Ok (py_min 1 (20 / 40)) /\
  py_min 1 (20 / 40) = 0.5 /\
  primary_key s = 3 * 20.
Proof.
  intros s.
  destruct (zero_estimate_uses_fallback s eq_refl) as (_ & Hq & Hhalf & Hk).
  repeat split; assumption.
Defined.

(** C1.  The code at the failing input: two embeddings of one dimension
    with the weights [0.0, 0.0] and the default threshold.  The
    normalization of the weights divides by their sum, 0, and
    [ZeroDivisionError] escapes; the claim promises a vector for every
    non-empty sequence and any weights. *)
Theorem combine_with_zero_weights_raises :
  combine_speaker_embeddings [north; north] (Some [0; 0]) 0.7 None
  = Raise ZeroDivisionError.
Proof.
  apply combine_zero_weights_raise.
  - intros t u [<-|[<-|[]]] [<-|[<-|[]]]; reflexivity.
  - discriminate.
  - repeat constructor.
Qed.

(** C8, as amended.  A single embedding is normalized and returned,
    whatever the weights, the threshold and the device, with no centroid,
    rejection or weighting: the result is [F.normalize] of the embedding,
    that is the embedding divided by [max(norm, eps)], a positive multiple
    of it, and of norm 1 whenever the embedding's norm is at least
    [eps = 1e-12]. *)
Theorem single_embedding_is_normalized :
  forall (e : Torch.tensor) (weights : option (list R)) (thr : R)
         (device : option Torch.device),
    combine_speaker_embeddings [e] weights thr device
      = Ok (Torch.normalize (Torch.to e device)) /\
    (exists c, 0 < c /\
       Torch.values (Torch.normalize (Torch.to e device))
         = map (fun x => c * x) (Torch.values e)) /\
    (Torch.eps <= Torch.norm (Torch.values e) ->
     Torch.norm (Torch.values (Torch.normalize (Torch.to e device))) = 1).
Proof.
  intros e weights thr device.
  assert (Hv : Torch.values (Torch.to e device) = Torch.values e)
    by (destruct device; reflexivity).
  split; [reflexivity|]. split.
  - destruct (normalize_direction (Torch.to e device)) as (c & Hc & E).
    exists c. split; [exact Hc|]. now rewrite E, Hv.
  - intros H. apply norm_normalize_unit. now rewrite Hv.
Qed.

Lemma single_embedding_is_normalized_witness :
  Torch.eps <= Torch.norm (Torch.values north) /\
  combine_speaker_embeddings [north] (Some [0.25]) 0.7 (Some (Torch.Cuda 0))
    = Ok (Torch.normalize (Torch.to north (Some (Torch.Cuda 0)))) /\
  Torch.norm
    (Torch.values (Torch.normalize (Torch.to north (Some (Torch.Cuda 0))))) = 1.
Proof.
  assert (H : Torch.eps <= Torch.norm (Torch.values north)).
  { simpl. rewrite norm_north. unfold Torch.eps. lra. }
  destruct (single_embedding_is_normalized north (Some [0.25]) 0.7
              (Some (Torch.Cuda 0))) as (Heq & _ & Hunit).
  split; [exact H|]. split; [exact Heq|]. exact (Hunit H).
Defined.

(** C8, as stated, fails: the zero embedding is returned as the zero
    vector, whose norm is 0, not 1. *)
Lemma zero_embedding_stays_zero :
  exists fused,
    combine_speaker_embeddings [origin] None 0.7 None = Ok fused /\
    Torch.values fused = [0 / Torch.eps; 0 / Torch.eps] /\
    Torch.norm (Torch.values fused) = 0.
Proof.
  assert (Hn : Torch.norm (Torch.values origin) = 0) by apply (norm_zeros 2).
  eexists. split; [reflexivity|]. split.
  - cbn [Torch.to Torch.float]. now rewrite normalize_of_zero.
  - cbn [Torch.to Torch.float]. rewrite norm_normalize, Hn. unfold Rdiv. lra.
Qed.

(** C5, as amended.  Two or more embeddings of one dimension, a positive
    threshold, and every normalized embedding below it: the rejection
    keeps nothing, so the fuser takes all normalized embeddings with the
    original weights and, the weights' sum not being zero, returns the
    normalization of their weighted mean.  The result has norm at most 1,
    and norm 1 when the weighted mean's norm is at least [eps]. *)
Theorem all_outliers_fall_back :
  forall (e1 e2 : Torch.tensor) (rest : list Torch.tensor)
         (weights : option (list R)) (thr : R) (device : option Torch.device),
    let embeddings := e1 :: e2 :: rest in
    let normed := normed_embeddings (target_device device e1) embeddings in
    let ws := weights_or_default weights (length normed) in
    let centroid := Torch.normalize (Torch.mean0 normed) in
    let combined :=
      weighted_sum normed (map (fun w => w / py_sum ws) ws)
                   (Torch.zeros_like (hd e1 normed)) in
    same_shape embeddings ->
    0 < thr ->
    Forall (fun emb => Torch.dot emb centroid < thr) normed ->
    py_sum ws <> 0 ->
    combine_speaker_embeddings embeddings weights thr device
      = Ok (Torch.normalize combined) /\
    Torch.norm (Torch.values (Torch.normalize combined)) <= 1 /\
    (Torch.eps <= Torch.norm (Torch.values combined) ->
     Torch.norm (Torch.values (Torch.normalize combined)) = 1).
Proof.
  intros e1 e2 rest weights thr device embeddings normed ws centroid combined
         Hs Hthr Hall Hsum.
  split; [|split; [apply norm_normalize_le_1|apply norm_normalize_unit]].
  unfold embeddings.
  rewrite fallback_when_all_rejected by assumption.
  unfold combined. now apply fuse_valid_ok with (rest := tl normed).
Qed.

Lemma all_outliers_fall_back_witness :
  let normed := normed_embeddings Torch.Cpu [east; west] in
  let centroid := Torch.normalize (Torch.mean0 normed) in
  same_shape [east; west] /\
  0 < 0.7 /\
  Forall (fun emb => Torch.dot emb centroid < 0.7) normed /\
  py_sum (repeat 1 2) <> 0 /\
  exists fused,
    combine_speaker_embeddings [east; west] None 0.7 None = Ok fused /\
    Torch.norm (Torch.values fused) <= 1.
Proof.
  intros normed centroid.
  assert (Hthr : 0 < 0.7) by lra.
  split; [exact east_west_same_shape|]. split; [exact Hthr|].
  split; [exact east_west_all_below|]. split; [exact default_weights_sum_2|].
  destruct (all_outliers_fall_back east west [] None 0.7 None
              east_west_same_shape Hthr east_west_all_below
              default_weights_sum_2) as (Heq & Hle & _).
  eexists. split; [exact Heq|exact Hle].
Defined.

(** C5, as stated, fails.  Two opposite unit vectors with the default
    weights and threshold: their centroid is the zero vector, both have
    similarity 0 to it and are rejected, the fallback fuses both, and the
    result is the zero vector, of norm 0: it is not L2-normalized. *)
Lemma opposite_embeddings_fuse_to_zero :
  Forall (fun emb =>
            Torch.dot emb
              (Torch.normalize
                 (Torch.mean0 (normed_embeddings Torch.Cpu [east; west]))) < 0.7)
         (normed_embeddings Torch.Cpu [east; west]) /\
  exists fused,
    combine_speaker_embeddings [east; west] None 0.7 None = Ok fused /\
    Torch.norm (Torch.values fused) = 0 /\
    Torch.norm (Torch.values fused) <> 1.
Proof.
  split; [exact east_west_all_below|].
  assert (Hthr : 0 < 0.7) by lra.
  pose proof (fallback_when_all_rejected east west [] None 0.7 None
                east_west_same_shape Hthr east_west_all_below) as Heq.
  rewrite (fuse_valid_ok _ _ _ _ (normed_east_west))
    in Heq by exact default_weights_sum_2.
  eexists. split; [exact Heq|].
  assert (E : forall x, x = 0 -> x <> 1) by (intros x ->; lra).
  match goal with
  | |- ?n = 0 /\ _ => assert (Hn : n = 0)
  end.
  { rewrite norm_normalize.
    match goal with
    | |- Torch.norm ?v / _ = 0 => assert (E0 : Torch.norm v = 0)
    end.
    { rewrite normed_east_west. unfold weighted_sum, py_sum. cbn.
      apply norm_singleton_0. lra. }
    rewrite E0. unfold Rdiv. lra. }
  split; [exact Hn|now apply E].
Qed.



(** C9.  For every file that decodes with a positive sample rate, and for
    every file that does not decode, [estimate_snr] is the quality estimate
    of the specification: the mono average, 0 for a near-zero overall RMS,
    20 dB for fewer than ten 20 ms frames, else the 10th percentile of the
    frame RMS as noise floor, 40 dB when that is near zero, else
    [20 * log10 (rms / floor)] clamped to [0, 60]; and 20 dB when decoding
    raises. *)
Theorem estimate_snr_follows_specification :
  forall (sf_read : string -> result (ndarray * Z)) (audio_path : string),
    (forall data sr, sf_read audio_path = Ok (data, sr) -> (0 < sr)%Z) ->
    estimate_snr sf_read audio_path = Spec.quality_estimate (sf_read audio_path).
Proof.
  intros sf_read audio_path Hrate.
  unfold estimate_snr, estimate_snr_body.
  destruct (sf_read audio_path) as [[data sr]|e]; [|reflexivity].
  specialize (Hrate data sr eq_refl).
  destruct (frame_length_eq sr Hrate) as [Hfl Hfpos].
  cbn [bind]. cbv zeta.
  change (match data with
          | Mono samples => samples
          | Multi frames => map mean frames
          end) with (Spec.to_mono data).
  rewrite Hfl.
  assert (Hsr : (sr <=? 0)%Z = false) by (apply Z.leb_gt; exact Hrate).
  rewrite Hsr, orb_false_r.
  unfold Spec.quality_estimate. cbv zeta.
  rewrite spec_rms_eq, (frames_slices _ _ Hfpos).
  rewrite length_map, length_seq, map_map.
  unfold Spec.near_zero.
  destruct (len data =? 0)%nat eqn:Elen.
  - apply Nat.eqb_eq in Elen. rewrite (to_mono_empty data Elen), rms_of_nil.
    destruct (Rlt_dec 0 1e-10); [reflexivity|lra].
  - destruct (Rlt_dec (rms_of (Spec.to_mono data)) 1e-10); [reflexivity|].
    destruct (length (Spec.to_mono data) / Spec.frame_length sr <? 10)%nat;
      [reflexivity|].
    rewrite (map_ext (fun i => Spec.rms _) (fun i => rms_of
               (slice (Spec.to_mono data) (i * Spec.frame_length sr)
                  ((i + 1) * Spec.frame_length sr))))
      by (intros i; apply spec_rms_eq).
    destruct (Rlt_dec _ 1e-10); [reflexivity|].
    cbn [try_except]. apply clamp_eq.
Qed.

Lemma estimate_snr_follows_specification_witness :
  (forall data sr,
      silence_and_voice "voice.wav" = Ok (data, sr) -> (0 < sr)%Z) /\
  estimate_snr silence_and_voice "voice.wav"
    = Spec.quality_estimate (silence_and_voice "voice.wav") /\
  estimate_snr silence_and_voice "voice.wav" = 20.
Proof.
  assert (H : forall data sr,
             silence_and_voice "voice.wav" = Ok (data, sr) -> (0 < sr)%Z).
  { intros data sr E. unfold silence_and_voice in E. simpl in E.
    injection E as _ <-. lia. }
  split; [exact H|]. split; [|exact voice_snr].
  exact (estimate_snr_follows_specification silence_and_voice "voice.wav" H).
Defined.

(** * Further properties of the code *)

(** ** The decoder-facing functions *)

Lemma estimate_snr_le_60 (sf_read : string -> result (ndarray * Z)) (p : string) :
  estimate_snr sf_read p <= 60.
Proof.
  unfold estimate_snr, estimate_snr_body.
  destruct (sf_read p) as [[data sr]|e]; simpl; [|lra].
  repeat match goal with
         | |- context [if ?c then _ else _] => destruct c; simpl; try lra
         end.
  rewrite py_max_Rmax, py_min_Rmin. apply Rmax_lub; [lra|apply Rmin_l].
Qed.

(** X1. Whatever the decoder returns or raises, the quality estimate lies
    between 0 and 60 dB. *)
Theorem estimate_snr_bounded :
  forall (sf_read : string -> result (ndarray * Z)) (audio_path : string),
    0 <= estimate_snr sf_read audio_path <= 60.
Proof.
  intros sf_read audio_path. split.
  - apply estimate_snr_nonneg.
  - apply estimate_snr_le_60.
Qed.

(** X2. With a decoder that reports positive sample rates, the duration is
    never negative, and it is 0 exactly for a file that cannot be decoded
    or that holds no samples. *)
Theorem get_audio_duration_zero_iff :
  forall (sf_read : string -> result (ndarray * Z)) (audio_path : string),
    rates_positive sf_read ->
    0 <= get_audio_duration sf_read audio_path /\
    (get_audio_duration sf_read audio_path = 0 <->
     (exists e, sf_read audio_path = Raise e) \/
     (exists data sr, sf_read audio_path = Ok (data, sr) /\ len data = 0%nat)).
Proof.
  intros sf_read audio_path Hr.
  split; [now apply get_audio_duration_nonneg|].
  unfold get_audio_duration.
  destruct (sf_read audio_path) as [[data sr]|e] eqn:E; simpl.
  - assert (Hsr : 0 < IZR sr) by (apply IZR_lt; now apply (Hr audio_path data)).
    rewrite py_truediv_ok by lra. simpl. split.
    + intros H0. right. exists data, sr. split; [reflexivity|].
      apply INR_eq. simpl.
      apply Rmult_eq_reg_r with (/ IZR sr).
      * unfold Rdiv in H0. rewrite H0. lra.
      * apply Rinv_neq_0_compat. lra.
    + intros [[e He]|(d & s & Hd & Hlen)]; [discriminate|].
      injection Hd as <- <-. rewrite Hlen. simpl. unfold Rdiv. lra.
  - split; [intros _; left; now exists e|reflexivity].
Qed.

Lemma get_audio_duration_zero_iff_witness :
  rates_positive two_seconds /\
  0 <= get_audio_duration two_seconds "a.wav" /\
  get_audio_duration two_seconds "a.wav" <> 0.
Proof.
  assert (Hr : rates_positive two_seconds).
  { intros p data sr H. unfold two_seconds in H. injection H as _ <-. lia. }
  destruct (get_audio_duration_zero_iff two_seconds "a.wav" Hr) as [H0 Hiff].
  split; [exact Hr|]. split; [exact H0|].
  intros Hz. apply Hiff in Hz.
  destruct Hz as [[e He]|(data & sr & Hd & Hlen)]; [discriminate|].
  unfold two_seconds in Hd. injection Hd as <- _. discriminate.
Defined.

(** ** The analyzer's weights *)

Lemma quality_w_pos (s : AudioSampleInfo) : snr_nonneg s -> 0 < quality_w s.
Proof.
  intros Hs. unfold quality_w. rewrite py_min_Rmin.
  apply Rmin_glb_lt; [lra|].
  assert (0 < or_float (snr_estimate s) 20); [|lra].
  unfold or_float. destruct (snr_estimate s) as [v|] eqn:E; [|lra].
  destruct (Req_dec_T v 0); [lra|].
  pose proof (Hs v E). lra.
Qed.

Lemma py_sum_pos (l : list R) :
  l <> [] -> Forall (fun x => 0 < x) l -> 0 < py_sum l.
Proof.
  intros Hne H. destruct H as [|x l Hx Hl]; [contradiction|].
  rewrite py_sum_cons.
  assert (0 <= py_sum l); [|lra].
  apply py_sum_nonneg. revert Hl. apply Forall_impl. intros; lra.
Qed.

Lemma weigh_pos (l : list AudioSampleInfo) :
  Forall snr_nonneg l ->
  Forall (fun s => 0 <= duration s) l ->
  Forall (fun s => 0 < weight s) l ->
  Forall (fun s => 0 < weight s) (weigh l).
Proof.
  intros Hq Hd Hw. unfold weigh. apply Forall_map. simpl.
  rewrite Forall_forall in *. intros s Hs. unfold weigh_w.
  destruct (Rlt_dec 0 (py_sum (map duration l))) as [HT|_]; [|now apply Hw].
  unfold raw_weight.
  pose proof (quality_w_pos s (Hq s Hs)).
  assert (0 <= duration s / py_sum (map duration l)).
  { apply Rmult_le_pos; [now apply Hd|]. left. now apply Rinv_0_lt_compat. }
  lra.
Qed.

Lemma renorm_pos (l : list AudioSampleInfo) :
  Forall (fun s => 0 < weight s) l ->
  Forall (fun s => 0 < weight s) (renorm l).
Proof.
  intros Hw. unfold renorm. apply Forall_map. simpl.
  rewrite Forall_forall in *. intros s Hs. unfold renorm_w.
  destruct (Rlt_dec 0 (py_sum (map weight l))) as [HW|_]; [|now apply Hw].
  apply Rmult_lt_0_compat; [now apply Hw|now apply Rinv_0_lt_compat].
Qed.

Lemma mark_primary_weights_pos (l : list AudioSampleInfo) :
  Forall (fun s => 0 < weight s) l ->
  Forall (fun s => 0 < weight s) (mark_primary l).
Proof.
  intros H. rewrite Forall_forall in *. intros s Hs.
  assert (Hw : In (weight s) (map weight (mark_primary l))) by now apply in_map.
  rewrite map_weight_mark_primary in Hw. apply in_map_iff in Hw.
  destruct Hw as (s' & <- & Hs'). now apply H.
Qed.

Lemma initial_samples_weights_pos sf_read audio_paths transcripts :
  Forall (fun s => 0 < weight s) (initial_samples sf_read audio_paths transcripts).
Proof.
  apply Forall_forall. intros s Hs.
  destruct (initial_samples_In _ _ _ _ Hs) as (i & p & t & _ & ->).
  simpl. unfold default_weight. lra.
Qed.

(** The weights of the analyzer's records are positive. *)
Lemma analyzer_weights_pos sf_read audio_paths transcripts :
  rates_positive sf_read ->
  Forall (fun s => 0 < weight s)
    (mark_primary (renorm (weigh (initial_samples sf_read audio_paths transcripts)))).
Proof.
  intros Hr. apply mark_primary_weights_pos, renorm_pos, weigh_pos.
  - apply initial_samples_snr_nonneg.
  - now apply initial_samples_duration_nonneg.
  - apply initial_samples_weights_pos.
Qed.

(** X3. With a decoder that reports positive sample rates, every record
    the analyzer returns has a strictly positive weight, whatever the
    durations and estimates: no sample is weighted out, and the weights of
    any sub-list have a non-zero sum. *)
Theorem analyze_weights_positive :
  forall (sf_read : string -> result (ndarray * Z))
         (audio_paths : list string)
         (transcripts : option (list (option string))),
    rates_positive sf_read ->
    exists samples,
      analyze_audio_samples sf_read audio_paths transcripts = Ok samples /\
      Forall (fun s => 0 < weight s) samples.
Proof.
  intros sf_read audio_paths transcripts Hr.
  eexists. split; [apply analyze_audio_samples_eq|].
  now apply analyzer_weights_pos.
Qed.

Lemma rates_positive_two_seconds : rates_positive two_seconds.
Proof. intros p data sr H. unfold two_seconds in H. injection H as _ <-. lia. Qed.

Lemma analyze_weights_positive_witness :
  rates_positive two_seconds /\
  exists samples,
    analyze_audio_samples two_seconds ["a.wav"%string; "b.wav"%string] None
      = Ok samples /\
    Forall (fun s => 0 < weight s) samples.
Proof.
  split; [exact rates_positive_two_seconds|].
  exact (analyze_weights_positive two_seconds ["a.wav"%string; "b.wav"%string]
           None rates_positive_two_seconds).
Defined.

(** X4. A single path always yields one record, of weight 1 and marked
    primary, whether or not the file can be read. *)
Theorem analyze_single_sample :
  forall (sf_read : string -> result (ndarray * Z)) (p : string)
         (transcripts : option (list (option string))),
  exists s,
    analyze_audio_samples sf_read [p] transcripts = Ok [s] /\
    path s = p /\
    weight s = 1 /\
    is_primary s = true.
Proof.
  intros sf_read p transcripts.
  rewrite analyze_audio_samples_eq.
  set (init := initial_samples sf_read [p] transcripts).
  assert (Hinit : exists s0, init = [s0] /\ path s0 = p /\ weight s0 = 1 /\
                             snr_nonneg s0).
  { pose proof (nth_error_initial_samples sf_read [p] transcripts 0) as H0.
    pose proof (length_initial_samples sf_read [p] transcripts) as Hlen.
    fold init in H0, Hlen. simpl in H0, Hlen.
    destruct init as [|s0 [|s1 r]]; try discriminate.
    simpl in H0. injection H0 as ->. eexists. split; [reflexivity|].
    simpl. repeat split. intros v Hv. injection Hv as <-.
    apply estimate_snr_nonneg. }
  destruct Hinit as (s0 & -> & Hp & Hw & Hq).
  assert (Hw1 : 0 < weigh_w [s0] s0).
  { unfold weigh_w. simpl. rewrite py_sum_cons, py_sum_nil.
    destruct (Rlt_dec 0 (duration s0 + 0)) as [HT|_]; [|lra].
    unfold raw_weight. pose proof (quality_w_pos s0 Hq).
    replace (duration s0 / (duration s0 + 0)) with 1 by (field; lra). lra. }
  unfold weigh. cbn [map].
  set (s1 := set_weight s0 (weigh_w [s0] s0)).
  assert (Hr : renorm_w [s1] s1 = 1).
  { unfold renorm_w. simpl. rewrite py_sum_cons, py_sum_nil.
    destruct (Rlt_dec 0 (weigh_w [s0] s0 + 0)); [field; lra|lra]. }
  unfold renorm. cbn [map]. rewrite Hr.
  assert (Hb : best_index [set_weight s1 1] = 0%nat).
  { pose proof (best_index_in [set_weight s1 1] ltac:(discriminate)) as Hin.
    apply In_candidates in Hin. destruct Hin as (s & Hs & _).
    destruct (best_index [set_weight s1 1]) as [|k]; [reflexivity|].
    destruct k; discriminate. }
  unfold mark_primary. rewrite Hb. cbn.
  eexists. split; [reflexivity|]. cbn. repeat split. exact Hp.
Qed.

Lemma analyzer_record_origin sf_read audio_paths transcripts (s : AudioSampleInfo) :
  let init := initial_samples sf_read audio_paths transcripts in
  In s (mark_primary (renorm (weigh init))) ->
  exists s0,
    In s0 init /\
    duration s = duration s0 /\
    snr_estimate s = snr_estimate s0 /\
    weight s = renorm_w (weigh init) (set_weight s0 (weigh_w init s0)).
Proof.
  intros init Hin. apply In_nth_error in Hin. destruct Hin as [i Hi].
  rewrite nth_error_mark_primary, nth_error_renorm, nth_error_weigh in Hi.
  destruct (nth_error init i) as [s0|] eqn:E; [|discriminate].
  simpl in Hi. injection Hi as <-.
  exists s0. split; [now apply nth_error_In with i|]. repeat split.
Qed.

(** X5. The analyzer's weights are monotone: of two records of one call,
    the one that is neither shorter nor of lower quality (the estimate,
    with 20 dB for an absent or zero one) never gets the smaller weight. *)
Theorem analyze_weights_monotone :
  forall (sf_read : string -> result (ndarray * Z))
         (audio_paths : list string)
         (transcripts : option (list (option string))),
  exists samples,
    analyze_audio_samples sf_read audio_paths transcripts = Ok samples /\
    forall s1 s2,
      In s1 samples -> In s2 samples ->
      duration s1 <= duration s2 ->
      or_float (snr_estimate s1) 20 <= or_float (snr_estimate s2) 20 ->
      weight s1 <= weight s2.
Proof.
  intros sf_read audio_paths transcripts.
  eexists. split; [apply analyze_audio_samples_eq|].
  intros s1 s2 H1 H2 Hd Hq.
  destruct (analyzer_record_origin _ _ _ _ H1) as (a & Ha & Hda & Hqa & ->).
  destruct (analyzer_record_origin _ _ _ _ H2) as (b & Hb & Hdb & Hqb & ->).
  rewrite Hda, Hdb in Hd. rewrite Hqa, Hqb in Hq.
  set (init := initial_samples sf_read audio_paths transcripts) in *.
  assert (Hw : weigh_w init a <= weigh_w init b).
  { unfold weigh_w.
    destruct (Rlt_dec 0 (py_sum (map duration init))) as [HT|_].
    - unfold raw_weight, quality_w. rewrite !py_min_Rmin.
      assert (duration a / py_sum (map duration init)
              <= duration b / py_sum (map duration init)).
      { apply Rmult_le_compat_r; [|exact Hd].
        left. now apply Rinv_0_lt_compat. }
      assert (Rmin 1 (or_float (snr_estimate a) 20 / 40)
              <= Rmin 1 (or_float (snr_estimate b) 20 / 40)).
      { apply Rle_min_compat_l. lra. }
      lra.
    - destruct (initial_samples_In _ _ _ _ Ha) as (? & ? & ? & _ & ->).
      destruct (initial_samples_In _ _ _ _ Hb) as (? & ? & ? & _ & ->).
      simpl. lra. }
  unfold renorm_w. simpl.
  destruct (Rlt_dec 0 (py_sum (map weight (weigh init)))) as [HW|_]; [|exact Hw].
  apply Rmult_le_compat_r; [|exact Hw]. left. now apply Rinv_0_lt_compat.
Qed.

Lemma analyze_weights_monotone_witness :
  exists samples,
    analyze_audio_samples silence_and_voice
      ["silence.wav"%string; "voice.wav"%string]
      (Some [Some "hello"%string; Some "world"%string]) = Ok samples /\
    forall s1 s2,
      In s1 samples -> In s2 samples ->
      duration s1 <= duration s2 ->
      or_float (snr_estimate s1) 20 <= or_float (snr_estimate s2) 20 ->
      weight s1 <= weight s2.
Proof.
  exact (analyze_weights_monotone silence_and_voice
           ["silence.wav"%string; "voice.wav"%string]
           (Some [Some "hello"%string; Some "world"%string])).
Defined.

(** The transcript the analyzer pairs with path [i]. *)
Lemma initial_samples_ext sf_read audio_paths t1 t2 :
  (forall i, (i < length audio_paths)%nat ->
             match t1 with None => None | Some ts => nth i ts None end =
             match t2 with None => None | Some ts => nth i ts None end) ->
  initial_samples sf_read audio_paths t1 = initial_samples sf_read audio_paths t2.
Proof.
  intros H. apply nth_error_ext. intros i.
  rewrite !nth_error_initial_samples.
  destruct (nth_error audio_paths i) as [p|] eqn:E; [|reflexivity].
  simpl. rewrite H; [reflexivity|].
  apply nth_error_Some. rewrite E. discriminate.
Qed.

(** X6. Only the transcripts at the positions of the paths matter: two
    transcript arguments that agree there, a missing list or a missing
    entry counting as [None], give the same result; surplus transcripts
    are ignored. *)
Theorem analyze_depends_on_paired_transcripts :
  forall (sf_read : string -> result (ndarray * Z))
         (audio_paths : list string)
         (t1 t2 : option (list (option string))),
    (forall i, (i < length audio_paths)%nat ->
               match t1 with None => None | Some ts => nth i ts None end =
               match t2 with None => None | Some ts => nth i ts None end) ->
    analyze_audio_samples sf_read audio_paths t1
    = analyze_audio_samples sf_read audio_paths t2.
Proof.
  intros sf_read audio_paths t1 t2 H.
  rewrite !analyze_audio_samples_eq.
  now rewrite (initial_samples_ext sf_read audio_paths t1 t2 H).
Qed.

Lemma analyze_depends_on_paired_transcripts_witness :
  analyze_audio_samples two_seconds ["a.wav"%string] (Some [])
  = analyze_audio_samples two_seconds ["a.wav"%string]
      (Some [None; Some "surplus"%string]).
Proof.
  apply analyze_depends_on_paired_transcripts.
  intros i Hi. simpl in Hi. destruct i as [|i]; [reflexivity|lia].
Defined.

(** ** The fuser *)

Lemma fuse_valid_nonzero_or_empty (es : list Torch.tensor) (ws : list R) :
  es <> [] -> (ws = [] \/ py_sum ws <> 0) ->
  exists combined, fuse_valid es ws = Ok (Torch.normalize combined).
Proof.
  intros Hes Hws. destruct es as [|e0 rest]; [contradiction|].
  destruct Hws as [->|Hsum].
  - eexists. reflexivity.
  - eexists. now apply fuse_valid_ok with (rest := rest).
Qed.

(** Positive weights are always normalized and fused. *)
Lemma combine_positive_weights_ok :
  forall (e1 e2 : Torch.tensor) (rest : list Torch.tensor)
         (weights : option (list R)) (thr : R) (device : option Torch.device),
    same_shape (e1 :: e2 :: rest) ->
    (forall ws, weights = Some ws -> Forall (fun w => 0 < w) ws) ->
    exists fused,
      combine_speaker_embeddings (e1 :: e2 :: rest) weights thr device = Ok fused /\
      Torch.norm (Torch.values fused) <= 1.
Proof.
  intros e1 e2 rest weights thr device Hs Hpos.
  rewrite combine_speaker_embeddings_many by exact Hs. cbv zeta.
  set (normed := normed_embeddings (target_device device e1) (e1 :: e2 :: rest)).
  set (ws := weights_or_default weights (length normed)).
  assert (Hws : Forall (fun w => 0 < w) ws).
  { unfold ws, weights_or_default. destruct weights as [l|]; [now apply Hpos|].
    apply Forall_forall. intros w Hw. apply repeat_spec in Hw. lra. }
  assert (Hfuse : forall es l, es <> [] -> Forall (fun w => 0 < w) l ->
            exists fused, fuse_valid es l = Ok fused /\
                          Torch.norm (Torch.values fused) <= 1).
  { intros es l Hes Hl.
    destruct (fuse_valid_nonzero_or_empty es l Hes) as [c Hc].
    - destruct l; [now left|right].
      pose proof (py_sum_pos (r :: l) ltac:(discriminate) Hl). lra.
    - eexists. split; [exact Hc|apply norm_normalize_le_1]. }
  match goal with
  | |- exists _, match ?v with _ => _ end = _ /\ _ =>
      destruct v as [|p valid] eqn:Ev
  end.
  - apply Hfuse; [discriminate|exact Hws].
  - apply Hfuse; [discriminate|].
    apply Forall_forall. intros w Hw.
    apply in_map_iff in Hw. destruct Hw as ([e w'] & Hw' & Hin).
    simpl in Hw'. subst w'. rewrite <- Ev in Hin.
    apply filter_In in Hin. destruct Hin as [Hin _].
    apply in_combine_r in Hin. rewrite Forall_forall in Hws. now apply Hws.
Qed.


(** X7. Two or more embeddings of one dimension with strictly positive
    weights (or the default ones) are always fused: the call returns a
    vector of norm at most 1, for every threshold and device. *)
Theorem combine_with_positive_weights_returns :
  forall (e1 e2 : Torch.tensor) (rest : list Torch.tensor)
         (weights : option (list R)) (thr : R) (device : option Torch.device),
    same_shape (e1 :: e2 :: rest) ->
    (forall ws, weights = Some ws -> Forall (fun w => 0 < w) ws) ->
    exists fused,
      combine_speaker_embeddings (e1 :: e2 :: rest) weights thr device = Ok fused /\
      Torch.norm (Torch.values fused) <= 1.
Proof. exact combine_positive_weights_ok. Qed.

Lemma combine_with_positive_weights_returns_witness :
  same_shape [east; west] /\
  exists fused,
    combine_speaker_embeddings [east; west] (Some [0.25; 0.75]) 0.7 None
      = Ok fused /\
    Torch.norm (Torch.values fused) <= 1.
Proof.
  split; [exact east_west_same_shape|].
  apply combine_with_positive_weights_returns; [exact east_west_same_shape|].
  intros ws H. injection H as <-.
  constructor; [lra|constructor; [lra|constructor]].
Defined.

Lemma py_sum_scale (k : R) (ws : list R) :
  py_sum (map (fun w => k * w) ws) = k * py_sum ws.
Proof.
  induction ws as [|w ws IH]; simpl.
  - rewrite py_sum_nil. lra.
  - rewrite !py_sum_cons, IH. lra.
Qed.

Lemma fuse_valid_scale (k : R) (es : list Torch.tensor) (ws : list R) :
  k <> 0 -> fuse_valid es (map (fun w => k * w) ws) = fuse_valid es ws.
Proof.
  intros Hk. unfold fuse_valid. rewrite py_sum_scale.
  destruct (Req_dec_T (py_sum ws) 0) as [H0|Hn].
  - rewrite H0, Rmult_0_r. destruct ws as [|w ws]; [reflexivity|].
    cbn [map].
    rewrite (mapM_raise_head (fun x => py_truediv x 0) (k * w) _
               ZeroDivisionError (py_truediv_zero _)).
    rewrite (mapM_raise_head (fun x => py_truediv x 0) w _
               ZeroDivisionError (py_truediv_zero _)).
    reflexivity.
  - rewrite (mapM_ok_map _ (fun w => w / (k * py_sum ws)))
      by (intros w _; apply py_truediv_ok; nra).
    rewrite (mapM_ok_map (fun w => py_truediv w (py_sum ws))
               (fun w => w / py_sum ws))
      by (intros w _; now apply py_truediv_ok).
    rewrite map_map.
    rewrite (map_ext (fun w => k * w / (k * py_sum ws)) (fun w => w / py_sum ws))
      by (intros w; field; split; assumption).
    reflexivity.
Qed.

Lemma filter_combine_scale {A : Type} (f : A -> bool) (k : R) (es : list A)
    (ws : list R) :
  filter (fun p => f (fst p)) (combine es (map (fun w => k * w) ws)) =
  map (fun p => (fst p, k * snd p)) (filter (fun p => f (fst p)) (combine es ws)).
Proof.
  revert ws; induction es as [|e es IH]; intros ws; [reflexivity|].
  destruct ws as [|w ws]; [reflexivity|]. simpl.
  destruct (f e); simpl; now rewrite IH.
Qed.

(** X8. The weights are used only up to a common factor: multiplying all
    of them by one non-zero number changes nothing in the outcome, result
    or exception, for any embeddings, threshold and device. *)
Theorem combine_weights_scale_invariant :
  forall (embeddings : list Torch.tensor) (ws : list R) (k thr : R)
         (device : option Torch.device),
    k <> 0 ->
    combine_speaker_embeddings embeddings (Some (map (fun w => k * w) ws))
      thr device
    = combine_speaker_embeddings embeddings (Some ws) thr device.
Proof.
  intros embeddings ws k thr device Hk.
  destruct embeddings as [|e1 [|e2 rest]]; [reflexivity|reflexivity|].
  unfold combine_speaker_embeddings.
  match goal with
  | |- bind ?s _ = _ => destruct s as [stacked|e]; [|reflexivity]
  end.
  cbn [bind].
  rewrite (filter_combine_scale
             (fun e => negb (is_outlier thr (Torch.normalize (Torch.mean0 stacked)) e))).
  rewrite !map_map. cbn [fst snd].
  rewrite <- (map_map snd (fun w => k * w)).
  match goal with
  | |- match ?v with _ => _ end = _ => destruct v
  end; now apply fuse_valid_scale.
Qed.

Lemma combine_weights_scale_invariant_witness :
  2 <> 0 /\
  combine_speaker_embeddings [east; west]
    (Some (map (fun w => 2 * w) [0.25; 0.75])) 0.7 None
  = combine_speaker_embeddings [east; west] (Some [0.25; 0.75]) 0.7 None.
Proof.
  assert (H : 2 <> 0) by lra.
  split; [exact H|].
  exact (combine_weights_scale_invariant [east; west] [0.25; 0.75] 2 0.7 None H).
Defined.

Lemma is_outlier_disabled (thr : R) (centroid emb : Torch.tensor) :
  thr <= 0 -> is_outlier thr centroid emb = false.
Proof.
  intros H. unfold is_outlier. destruct (Rlt_dec 0 thr); [lra|reflexivity].
Qed.

(** X9. A threshold of 0 or below disables the rejection: the outcome is
    the one for threshold 0, whatever the similarities. *)
Theorem combine_nonpositive_threshold :
  forall (embeddings : list Torch.tensor) (weights : option (list R)) (thr : R)
         (device : option Torch.device),
    thr <= 0 ->
    combine_speaker_embeddings embeddings weights thr device
    = combine_speaker_embeddings embeddings weights 0 device.
Proof.
  intros embeddings weights thr device Hthr.
  destruct embeddings as [|e1 [|e2 rest]]; [reflexivity|reflexivity|].
  unfold combine_speaker_embeddings.
  match goal with
  | |- bind ?s _ = _ => destruct s as [stacked|e]; [|reflexivity]
  end.
  cbn [bind].
  rewrite (filter_ext
             (fun p => negb (is_outlier thr (Torch.normalize (Torch.mean0 stacked)) (fst p)))
             (fun p => negb (is_outlier 0 (Torch.normalize (Torch.mean0 stacked)) (fst p)))).
  - reflexivity.
  - intros p. now rewrite !is_outlier_disabled by lra.
Qed.

Lemma combine_nonpositive_threshold_witness :
  -1 <= 0 /\
  combine_speaker_embeddings [east; west] None (-1) None
  = combine_speaker_embeddings [east; west] None 0 None.
Proof.
  assert (H : -1 <= 0) by lra.
  split; [exact H|].
  exact (combine_nonpositive_threshold [east; west] None (-1) None H).
Defined.

Lemma normalize_rescaled (e e' : Torch.tensor) (d : option Torch.device) :
  rescaled e e' ->
  Torch.normalize (Torch.float (Torch.to e' d))
  = Torch.normalize (Torch.float (Torch.to e d)).
Proof.
  intros (Hdev & c & Hc & Hv & He & He').
  assert (Hvals : forall t, Torch.values (Torch.to t d) = Torch.values t)
    by (intros t; destruct d; reflexivity).
  assert (Hd : Torch.dev (Torch.to e' d) = Torch.dev (Torch.to e d))
    by (destruct d; [reflexivity|exact Hdev]).
  unfold Torch.normalize, Torch.float. rewrite Hd, !Hvals. f_equal.
  rewrite !Rmax_left by assumption.
  assert (Hn : Torch.norm (Torch.values e') = c * Torch.norm (Torch.values e)).
  { rewrite Hv.
    rewrite (map_ext (fun x => c * x) (fun x => x / / c))
      by (intros x; field; lra).
    rewrite norm_scale by (apply Rinv_0_lt_compat; exact Hc).
    field. lra. }
  pose proof eps_pos.
  rewrite Hn, Hv, map_map. apply map_ext. intros x. field. lra.
Qed.

Lemma normed_rescaled (d : Torch.device) (es es' : list Torch.tensor) :
  Forall2 rescaled es es' ->
  normed_embeddings d es' = normed_embeddings d es.
Proof.
  induction 1 as [|e e' es es' He _ IH]; [reflexivity|].
  unfold normed_embeddings in *. cbn [map].
  now rewrite IH, (normalize_rescaled e e' (Some d) He).
Qed.

(** X10. The fuser sees only the directions of the embeddings: replacing
    each embedding by a positive multiple of itself (all norms at least
    [eps]) leaves the outcome unchanged, for any weights, threshold and
    device. *)
Theorem combine_embedding_scale_invariant :
  forall (es es' : list Torch.tensor) (weights : option (list R)) (thr : R)
         (device : option Torch.device),
    Forall2 rescaled es es' ->
    combine_speaker_embeddings es' weights thr device
    = combine_speaker_embeddings es weights thr device.
Proof.
  intros es es' weights thr device H.
  destruct H as [|e1 e1' r r' H1 Hr]; [reflexivity|].
  destruct Hr as [|e2 e2' r r' H2 Hr].
  - unfold combine_speaker_embeddings.
    now rewrite (normalize_rescaled e1 e1' device H1).
  - assert (Hn : forall d, normed_embeddings d (e1' :: e2' :: r')
                           = normed_embeddings d (e1 :: e2 :: r)).
    { intros d. apply normed_rescaled.
      constructor; [exact H1|constructor; [exact H2|exact Hr]]. }
    assert (Hd : Torch.dev e1' = Torch.dev e1) by apply H1.
    unfold combine_speaker_embeddings. rewrite Hd.
    unfold normed_embeddings in Hn. now rewrite Hn.
Qed.

Lemma norm_singleton (x : R) : Torch.norm [x] = Rabs x.
Proof.
  unfold Torch.norm, py_sum. simpl.
  replace (0 + x * x) with (Rsqr x) by (unfold Rsqr; lra).
  apply sqrt_Rsqr_abs.
Qed.

Lemma east_west_rescaled : Forall2 rescaled [east; west] [far_east; far_west].
Proof.
  pose proof eps_pos as Heps. unfold Torch.eps in *.
  constructor; [|constructor; [|constructor]].
  - split; [reflexivity|]. exists 2. split; [lra|]. split.
    + simpl. f_equal. lra.
    + simpl. rewrite !norm_singleton, !Rabs_pos_eq by lra.
      unfold Torch.eps. lra.
  - split; [reflexivity|]. exists 3. split; [lra|]. split.
    + simpl. f_equal. lra.
    + simpl. rewrite !norm_singleton.
      rewrite (Rabs_left (-1)), (Rabs_left (-3)) by lra.
      unfold Torch.eps. lra.
Qed.

Lemma combine_embedding_scale_invariant_witness :
  Forall2 rescaled [east; west] [far_east; far_west] /\
  combine_speaker_embeddings [far_east; far_west] (Some [0.25; 0.75]) 0.7 None
  = combine_speaker_embeddings [east; west] (Some [0.25; 0.75]) 0.7 None.
Proof.
  split; [exact east_west_rescaled|].
  exact (combine_embedding_scale_invariant [east; west] [far_east; far_west]
           (Some [0.25; 0.75]) 0.7 None east_west_rescaled).
Defined.

(** ** The prompt assembler *)
















Lemma mapM_first_failure {A B : Type} (f : A -> result B) (pre : list A) (x : A)
    (post : list A) (e : exn) :
  (forall a, In a pre -> exists b, f a = Ok b) ->
  f x = Raise e ->
  mapM f (pre ++ x :: post) = Raise e.
Proof.
  intros Hpre Hx. induction pre as [|a pre IH]; simpl.
  - now rewrite Hx.
  - destruct (Hpre a (or_introl eq_refl)) as [b ->]. simpl.
    rewrite IH by (intros a' Ha'; apply Hpre; now right). reflexivity.
Qed.

Lemma create_combined_raises model (infos : list AudioSampleInfo) (x : bool)
    (e : exn) :
  infos <> [] ->
  all_prompts_of model infos x = Raise e ->
  create_combined_voice_clone_prompt model infos x = Raise e.
Proof.
  intros Hne H. unfold create_combined_voice_clone_prompt.
  destruct infos; [contradiction|]. now rewrite H.
Qed.

(** X14. There are no partial results: when the synthesis model has
    answered for the records before one and raises for that one, the
    assembler raises that exception, in either mode; when the model answers
    for it with an empty list, the assembler raises [IndexError]. *)
Theorem first_model_failure_propagates :
  forall (model : string -> option string -> bool ->
                  result (list VoiceClonePromptItem))
         (pre : list AudioSampleInfo) (info : AudioSampleInfo)
         (post : list AudioSampleInfo) (x_only : bool),
    (forall i, In i pre ->
               exists p0 r, model (path i) (transcript i) x_only = Ok (p0 :: r)) ->
    (forall e, model (path info) (transcript info) x_only = Raise e ->
               create_combined_voice_clone_prompt model (pre ++ info :: post) x_only
               = Raise e) /\
    (model (path info) (transcript info) x_only = Ok [] ->
     create_combined_voice_clone_prompt model (pre ++ info :: post) x_only
     = Raise IndexError).
Proof.
  intros model pre info post x_only Hpre.
  assert (Hne : pre ++ info :: post <> []) by (destruct pre; discriminate).
  assert (Hok : forall a, In a pre ->
            exists b,
              (prompt <- model (path a) (transcript a) x_only ;;
               match prompt with
               | [] => Raise IndexError
               | p0 :: _ => Ok (a, p0)
               end) = Ok b).
  { intros a Ha. destruct (Hpre a Ha) as (p0 & r & ->). eexists. reflexivity. }
  split.
  - intros e He. apply create_combined_raises; [exact Hne|].
    unfold all_prompts_of. apply mapM_first_failure; [exact Hok|].
    now rewrite He.
  - intros He. apply create_combined_raises; [exact Hne|].
    unfold all_prompts_of. apply mapM_first_failure; [exact Hok|].
    now rewrite He.
Qed.

Lemma first_model_failure_propagates_witness :
  create_combined_voice_clone_prompt flaky_model
    ([hello_sample] ++ bad_sample :: [hello_sample]) false
  = Raise (RuntimeError "cannot read bad.wav") /\
  create_combined_voice_clone_prompt flaky_model
    ([hello_sample] ++ empty_sample :: []) true
  = Raise IndexError.
Proof.
  assert (Hpre : forall x i, In i [hello_sample] ->
            exists p0 r, flaky_model (path i) (transcript i) x = Ok (p0 :: r)).
  { intros x i [<-|[]]. eexists _, _. reflexivity. }
  split.
  - exact (proj1 (first_model_failure_propagates flaky_model [hello_sample]
                    bad_sample [hello_sample] false (Hpre false))
                 _ eq_refl).
  - exact (proj2 (first_model_failure_propagates flaky_model [hello_sample]
                    empty_sample [] true (Hpre true))
                 eq_refl).
Defined.

(** ** The display helpers *)

Lemma list_max_in (x : R) (r : list R) : In (list_max x r) (x :: r).
Proof.
  unfold list_max. revert x; induction r as [|y r IH]; intros x; simpl.
  - now left.
  - destruct (IH (py_max x y)) as [H|H].
    + rewrite <- H. unfold py_max.
      destruct (Rlt_dec x y); [right; left|left]; reflexivity.
    + right; right; exact H.
Qed.

Lemma list_max_ge_start (x : R) (r : list R) : x <= list_max x r.
Proof.
  unfold list_max. revert x; induction r as [|y r IH]; intros x; simpl.
  - lra.
  - specialize (IH (py_max x y)). unfold py_max in *.
    destruct (Rlt_dec x y); lra.
Qed.

Lemma list_max_ge (x : R) (r : list R) (y : R) :
  In y (x :: r) -> y <= list_max x r.
Proof.
  revert x; induction r as [|z r IH]; intros x Hy.
  - destruct Hy as [<-|[]]. unfold list_max. simpl. lra.
  - assert (E : list_max x (z :: r) = list_max (py_max x z) r) by reflexivity.
    rewrite E. destruct Hy as [<-|[<-|Hy]].
    + pose proof (list_max_ge_start (py_max x z) r).
      unfold py_max in *. destruct (Rlt_dec x z); lra.
    + pose proof (list_max_ge_start (py_max x z) r).
      unfold py_max in *. destruct (Rlt_dec x z); lra.
    + apply IH. now right.
Qed.

Lemma list_min_in (x : R) (r : list R) : In (list_min x r) (x :: r).
Proof.
  unfold list_min. revert x; induction r as [|y r IH]; intros x; simpl.
  - now left.
  - destruct (IH (py_min x y)) as [H|H].
    + rewrite <- H. unfold py_min.
      destruct (Rlt_dec y x); [right; left|left]; reflexivity.
    + right; right; exact H.
Qed.

Lemma list_min_le_start (x : R) (r : list R) : list_min x r <= x.
Proof.
  unfold list_min. revert x; induction r as [|y r IH]; intros x; simpl.
  - lra.
  - specialize (IH (py_min x y)). unfold py_min in *.
    destruct (Rlt_dec y x); lra.
Qed.

Lemma list_min_le (x : R) (r : list R) (y : R) :
  In y (x :: r) -> list_min x r <= y.
Proof.
  revert x; induction r as [|z r IH]; intros x Hy.
  - destruct Hy as [<-|[]]. unfold list_min. simpl. lra.
  - assert (E : list_min x (z :: r) = list_min (py_min x z) r) by reflexivity.
    rewrite E. destruct Hy as [<-|[<-|Hy]].
    + pose proof (list_min_le_start (py_min x z) r).
      unfold py_min in *. destruct (Rlt_dec z x); lra.
    + pose proof (list_min_le_start (py_min x z) r).
      unfold py_min in *. destruct (Rlt_dec z x); lra.
    + apply IH. now right.
Qed.

Lemma flat_map_nil {A B : Type} (f : A -> list B) (l : list A) :
  flat_map f l = [] <-> forall x, In x l -> f x = [].
Proof.
  induction l as [|a l IH]; simpl.
  - split; [intros _ x []|reflexivity].
  - split.
    + intros H. apply app_eq_nil in H. destruct H as [Ha Hl].
      intros x [<-|Hx]; [exact Ha|]. now apply IH.
    + intros H. rewrite (H a (or_introl eq_refl)). simpl.
      apply IH. intros x Hx. apply H. now right.
Qed.

Section DisplayFacts.

Variable fmt_1f : R -> string.
Variable fmt_0f : R -> string.
Variable path_name : string -> string.

Lemma sample_warnings_nil (i : nat) (s : AudioSampleInfo) :
  sample_warnings fmt_1f fmt_0f path_name i s = [] <->
  3 <= duration s /\
  (forall v, snr_estimate s = Some v -> v = 0 \/ 15 <= v).
Proof.
  unfold sample_warnings, float_truthy. split.
  - intros H. apply app_eq_nil in H. destruct H as [H1 H2]. split.
    + destruct (Rlt_dec (duration s) 3); [discriminate|lra].
    + intros v Hv. rewrite Hv in H2.
      destruct (Req_dec_T v 0); [now left|]. right.
      destruct (Rlt_dec v 15); [discriminate|lra].
  - intros [H1 H2].
    destruct (Rlt_dec (duration s) 3); [lra|]. simpl.
    destruct (snr_estimate s) as [v|]; [|reflexivity].
    destruct (H2 v eq_refl) as [->|Hv].
    + destruct (Req_dec_T 0 0) as [_|H]; [reflexivity|]. now exfalso.
    + destruct (Req_dec_T v 0); [reflexivity|].
      destruct (Rlt_dec v 15); [lra|reflexivity].
Qed.

Lemma variance_warning_nil (samples : list AudioSampleInfo) :
  (forall s, In s samples -> 0 <= duration s) ->
  (variance_warning samples = [] <->
   forall s1 s2, In s1 samples -> In s2 samples ->
                 duration s1 <= 5 * duration s2).
Proof.
  intros Hpos. unfold variance_warning.
  destruct samples as [|a [|b r]].
  - simpl. split; [intros _ s1 s2 []|reflexivity].
  - simpl. split; [|reflexivity].
    intros _ s1 s2 [<-|[]] [<-|[]].
    pose proof (Hpos a (or_introl eq_refl)). lra.
  - cbn [length Nat.leb map].
    set (d := duration a). set (ds := duration b :: map duration r).
    set (l := a :: b :: r) in *.
    assert (Hin : forall x, In x (d :: ds) <-> exists s, In s l /\ duration s = x).
    { intros x. change (d :: ds) with (map duration l). rewrite in_map_iff.
      split; intros (s & H1 & H2); exists s; split; assumption. }
    split.
    + intros H s1 s2 H1 H2.
      destruct (Rlt_dec (5 * list_min d ds) (list_max d ds)); [discriminate|].
      assert (duration s1 <= list_max d ds)
        by (apply list_max_ge, Hin; now exists s1).
      assert (list_min d ds <= duration s2)
        by (apply list_min_le, Hin; now exists s2).
      lra.
    + intros H.
      destruct (Rlt_dec (5 * list_min d ds) (list_max d ds)) as [Hlt|];
        [|reflexivity].
      destruct (proj1 (Hin _) (list_max_in d ds)) as (s1 & H1 & E1).
      destruct (proj1 (Hin _) (list_min_in d ds)) as (s2 & H2 & E2).
      pose proof (H s1 s2 H1 H2). lra.
Qed.

(** X15. [get_sample_warnings] returns no warning exactly when every
    sample lasts at least 3 s, no sample has an estimate that is below
    15 dB and not 0 (an absent or zero estimate is not reported), and no
    sample is more than five times as long as another. *)
Theorem no_warnings_iff :
  forall samples : list AudioSampleInfo,
    get_sample_warnings fmt_1f fmt_0f path_name samples = [] <->
    (forall s, In s samples ->
               3 <= duration s /\
               (forall v, snr_estimate s = Some v -> v = 0 \/ 15 <= v)) /\
    (forall s1 s2, In s1 samples -> In s2 samples ->
                   duration s1 <= 5 * duration s2).
Proof.
  intros samples. unfold get_sample_warnings. split.
  - intros H. apply app_eq_nil in H. destruct H as [H1 H2].
    assert (Hs : forall s, In s samples ->
              3 <= duration s /\
              (forall v, snr_estimate s = Some v -> v = 0 \/ 15 <= v)).
    { intros s Hin. apply In_nth_error in Hin. destruct Hin as [i Hi].
      apply (sample_warnings_nil i).
      apply (proj1 (flat_map_nil _ _) H1 (i, s)). now apply In_enumerate. }
    split; [exact Hs|].
    apply variance_warning_nil; [|exact H2].
    intros s Hin. destruct (Hs s Hin). lra.
  - intros [Hs Hv].
    assert (E1 : flat_map (fun p => sample_warnings fmt_1f fmt_0f path_name
                                      (fst p) (snd p)) (enumerate samples) = []).
    { apply flat_map_nil. intros [i s] Hin. apply In_enumerate in Hin.
      apply sample_warnings_nil. apply Hs. now apply nth_error_In with i. }
    rewrite E1. simpl. apply variance_warning_nil; [|exact Hv].
    intros s Hin. destruct (Hs s Hin). lra.
Qed.

Lemma summary_lines_shape (samples : list AudioSampleInfo) :
  exists total rec,
    summary_lines fmt_1f fmt_0f path_name samples =
    map (fun p => summary_line fmt_1f fmt_0f path_name (fst p) (snd p))
        (enumerate samples) ++ total :: rec /\
    (length rec <= 1)%nat /\
    (rec = [] <-> 10 <= py_sum (map duration samples) <= 60).
Proof.
  unfold summary_lines. eexists _, _. split; [reflexivity|].
  unfold recommendation.
  destruct (Rlt_dec (py_sum (map duration samples)) 10).
  - split; [simpl; lia|]. split; [discriminate|lra].
  - destruct (Rlt_dec 60 (py_sum (map duration samples))).
    + split; [simpl; lia|]. split; [discriminate|lra].
    + split; [simpl; lia|]. split; [lra|reflexivity].
Qed.

(** X16. The summary is ["No samples"] for the empty list and for no
    other; otherwise it has one line per sample and a total line, followed
    by one recommendation line unless the total duration lies between 10 s
    and 60 s. *)
Theorem summary_of_samples :
  forall samples : list AudioSampleInfo,
    (format_samples_summary fmt_1f fmt_0f path_name samples = "No samples"%string
     <-> samples = []) /\
    (length (summary_lines fmt_1f fmt_0f path_name samples) =
       if Rlt_dec (py_sum (map duration samples)) 10 then (length samples + 2)%nat
       else if Rlt_dec 60 (py_sum (map duration samples))
            then (length samples + 2)%nat
            else (length samples + 1)%nat).
Proof.
  intros samples. split.
  - split; [|now intros ->].
    destruct samples as [|a r]; [reflexivity|].
    intros H. exfalso. unfold format_samples_summary in H.
    destruct (summary_lines_shape (a :: r)) as (total & rec & E & _ & _).
    rewrite E in H. cbn [enumerate enumerate_from map app] in H.
    destruct (map _ (enumerate_from 1 r) ++ total :: rec) as [|y l] eqn:El.
    + destruct (map _ (enumerate_from 1 r)); discriminate.
    + cbn [String.concat summary_line fst snd] in H.
      simpl in H. discriminate.
  - unfold summary_lines, recommendation, enumerate.
    rewrite !length_app, length_map, enumerate_from_length.
    destruct (Rlt_dec (py_sum (map duration samples)) 10); [simpl; lia|].
    destruct (Rlt_dec 60 (py_sum (map duration samples))); simpl; lia.
Qed.

End DisplayFacts.

Lemma no_warnings_iff_witness :
  get_sample_warnings (fun _ => "3.0"%string) (fun _ => "20"%string)
    (fun p => p) [hello_sample] = [].
Proof.
  apply no_warnings_iff. split.
  - intros s [<-|[]]. simpl. split; [lra|].
    intros v Hv. injection Hv as <-. right. lra.
  - intros s1 s2 [<-|[]] [<-|[]]. simpl. lra.
Defined.

Lemma summary_of_samples_witness :
  format_samples_summary (fun _ => "3.0"%string) (fun _ => "20"%string)
    (fun p => p) [] = "No samples"%string.
Proof.
  apply (proj1 (summary_of_samples (fun _ => "3.0"%string)
                  (fun _ => "20"%string) (fun p => p) [])).
  reflexivity.
Defined.

(** ** The model loader *)

Section DictFacts.

Context {V : Type}.
Implicit Types (d : list (string * V)) (k : string).

Lemma dict_get_del_same k d : Loader.dict_get k (Loader.dict_del k d) = None.
Proof.
  induction d as [|[k' v] d IH]; simpl; [reflexivity|].
  destruct (String.eqb k k') eqn:E; simpl; [exact IH|].
  now rewrite E.
Qed.

Lemma dict_get_del_other k k' d :
  k <> k' -> Loader.dict_get k' (Loader.dict_del k d) = Loader.dict_get k' d.
Proof.
  intros Hk. induction d as [|[k0 v] d IH]; simpl; [reflexivity|].
  destruct (String.eqb k k0) eqn:E; simpl.
  - apply String.eqb_eq in E. subst k0.
    destruct (String.eqb k' k) eqn:E'; [|exact IH].
    apply String.eqb_eq in E'. now subst.
  - now rewrite IH.
Qed.

Lemma dict_get_app k d1 d2 :
  Loader.dict_get k (d1 ++ d2) =
  match Loader.dict_get k d1 with
  | Some v => Some v
  | None => Loader.dict_get k d2
  end.
Proof.
  induction d1 as [|[k' v] d1 IH]; simpl; [reflexivity|].
  destruct (String.eqb k k'); [reflexivity|exact IH].
Qed.

Lemma dict_get_set_same k (v : V) d :
  Loader.dict_get k (Loader.dict_set k v d) = Some v.
Proof.
  induction d as [|[k' v'] d IH]; simpl.
  - now rewrite String.eqb_refl.
  - destruct (String.eqb k k') eqn:E; simpl; now rewrite E.
Qed.

Lemma dict_del_length_lt k d (v : V) :
  Loader.dict_get k d = Some v ->
  (length (Loader.dict_del k d) < length d)%nat.
Proof.
  induction d as [|[k' v'] d IH]; simpl; [discriminate|].
  destruct (String.eqb k k') eqn:E; simpl.
  - intros _. unfold Loader.dict_del.
    pose proof (filter_length_le (fun p => negb (String.eqb k (fst p))) d). lia.
  - intros H. apply IH in H. lia.
Qed.

Lemma move_to_end_get k k' d :
  Loader.dict_get k' (Loader.move_to_end k d) = Loader.dict_get k' d.
Proof.
  unfold Loader.move_to_end.
  destruct (Loader.dict_get k d) as [v|] eqn:E; [|reflexivity].
  rewrite dict_get_app. simpl.
  destruct (String.eqb k' k) eqn:Ek.
  - apply String.eqb_eq in Ek. subst k'. now rewrite dict_get_del_same, E.
  - assert (k <> k') by (intros ->; now rewrite String.eqb_refl in Ek).
    rewrite dict_get_del_other by assumption.
    now destruct (Loader.dict_get k' d).
Qed.

Lemma move_to_end_last k d (v : V) :
  Loader.dict_get k d = Some v ->
  exists front, Loader.move_to_end k d = front ++ [(k, v)] /\
                (length (Loader.move_to_end k d) <= length d)%nat.
Proof.
  intros H. unfold Loader.move_to_end. rewrite H.
  exists (Loader.dict_del k d). split; [reflexivity|].
  rewrite length_app. simpl. pose proof (dict_del_length_lt k d v H). lia.
Qed.

End DictFacts.

Section LoaderFacts.

Import Loader.

Variables Args Output World : Type.
Variable MIN_NEW_TOKENS_DEFAULT : Z.
Variable import_qwen_tts : World -> result unit.
Variable path_exists : World -> string -> bool.
Variable copy_tokenizer : World -> string -> string -> World * result unit.
Variable cuda_available : World -> bool.
Variable mps_available : World -> bool.
Variable from_pretrained :
  World -> string -> string -> dtype -> result (tts_model Args Output).
Variable str_of_exn : exn -> string.

Local Abbreviation model := (tts_model Args Output).
Local Abbreviation cache := (list (string * tts_model Args Output)).
Local Abbreviation State := (mkState Args Output World).
Local Abbreviation models_of := (loaded_models Args Output World).
Local Abbreviation world_of := (world Args Output World).
Local Abbreviation unload := (_unload_model Args Output).
Local Abbreviation evict_all := (evict Args Output).
Local Abbreviation patch := (_patch_generate_min_tokens Args Output).
Local Abbreviation evaluated := (eval_mode Args Output).
Local Abbreviation load :=
  (load_with Args Output World MIN_NEW_TOKENS_DEFAULT from_pretrained
     str_of_exn).
Local Abbreviation get :=
  (get_model Args Output World MIN_NEW_TOKENS_DEFAULT import_qwen_tts
     path_exists copy_tokenizer cuda_available mps_available from_pretrained
     str_of_exn).

(** The least number of new tokens a call asks for once [min_new] is
    enforced. *)
Local Abbreviation enforced min_new c :=
  (match min_new_tokens Args c with
   | Some v => Z.max v min_new%Z
   | None => min_new%Z
   end).

Lemma unload_head (k : string) (m : model) (r : cache) :
  (length (unload k ((k, m) :: r)) <= length r)%nat.
Proof.
  unfold _unload_model, dict_mem. cbn [dict_get]. rewrite String.eqb_refl.
  unfold dict_del. cbn [filter fst]. rewrite String.eqb_refl. cbn [negb].
  apply filter_length_le.
Qed.

Lemma evict_empties (fuel : nat) (models : cache) :
  (length models <= fuel)%nat -> evict_all fuel models = [].
Proof.
  revert models. induction fuel as [|fuel IH]; intros models Hlen.
  - destruct models; [reflexivity|simpl in Hlen; lia].
  - destruct models as [|[k m] r]; [reflexivity|].
    change (evict_all (S fuel) ((k, m) :: r))
      with (evict_all fuel (unload k ((k, m) :: r))).
    apply IH. pose proof (unload_head k m r). simpl in Hlen. lia.
Qed.

Lemma patched_generate_enforces (orig : call Args -> Output) (min_new : Z)
    (c : call Args) :
  patched_generate Args Output orig min_new c =
  orig (mkCall Args (Some (enforced min_new c)) (other_args Args c)).
Proof.
  unfold patched_generate. destruct c as [[v|] rest]; simpl; [|reflexivity].
  destruct (Z.ltb_spec v min_new).
  - now rewrite Z.max_r by lia.
  - now rewrite Z.max_l by lia.
Qed.

Lemma load_cases (models : cache) (w : World) (name path dev : string)
    (dtypes : list dtype) (last_err : option exn) :
  (exists m, load models w name path dev dtypes last_err =
             (State (dict_set name m models) w, Ok m) /\
             exists raw t, In t dtypes /\
                           from_pretrained w path dev t = Ok raw /\
                           m = patch (evaluated raw) MIN_NEW_TOKENS_DEFAULT) \/
  (exists e, load models w name path dev dtypes last_err =
             (State models w, Raise e)).
Proof.
  revert last_err. induction dtypes as [|t rest IH]; intros last_err.
  - right. eexists. reflexivity.
  - simpl. destruct (from_pretrained w path dev t) as [raw|e] eqn:E.
    + left. eexists. split; [reflexivity|].
      exists raw, t. repeat split; auto.
    + destruct (IH (Some e)) as [(m & Hm & raw & t' & Hin & Hraw & Heq)|[e' He']].
      * left. exists m. split; [exact Hm|]. exists raw, t'. auto.
      * right. exists e'. exact He'.
Qed.

Lemma get_model_miss_cases (st : state Args Output World) (name : string) :
  dict_get name (models_of st) = None ->
  (exists w m, get st name = (State [(name, m)] w, Ok m) /\
     exists raw path t,
       from_pretrained w path (_get_device World cuda_available mps_available w) t
         = Ok raw /\
       m = patch (evaluated raw) MIN_NEW_TOKENS_DEFAULT) \/
  (exists w e, get st name = (State [] w, Raise e)).
Proof.
  intros Hmiss. unfold get_model. rewrite Hmiss.
  rewrite (evict_empties _ _ (le_n _)).
  destruct (import_qwen_tts (world_of st)) as [u|e]; [|right; eauto].
  destruct (dict_get name MODEL_PATHS) as [path|]; [|right; eauto].
  destruct (negb (str_truthy path)); [right; eauto|].
  destruct (negb (path_exists (world_of st) path)); [right; eauto|].
  cbv zeta.
  match goal with
  | |- context [snd ?c] => destruct c as [w' [u'|e]]
  end; simpl fst; simpl snd; [|right; eauto].
  destruct (load_cases [] w' name path
              (_get_device World cuda_available mps_available w')
              preferred_dtypes None)
    as [(m & Hm & raw & t & _ & Hraw & Heq)|[e He]].
  - left. exists w', m. split; [exact Hm|]. exists raw, path, t. auto.
  - right. exists w', e. exact He.
Qed.

Lemma get_model_hit (st : state Args Output World) (name : string) (m : model) :
  dict_get name (models_of st) = Some m ->
  get st name = (State (move_to_end name (models_of st)) (world_of st), Ok m).
Proof.
  intros H. unfold get_model. now rewrite H.
Qed.






(** X18. Lines 99-101, get_model: a cached model is returned as it is,
    without touching the world; the cache keeps every binding, and the
    requested model becomes its most recent entry. *)
Theorem get_model_hit_returns_cached
    (st : state Args Output World) (name : string) (m : model) :
  dict_get name (models_of st) = Some m ->
  snd (get st name) = Ok m /\
  world_of (fst (get st name)) = world_of st /\
  (forall k, dict_get k (models_of (fst (get st name)))
             = dict_get k (models_of st)) /\
  exists front, models_of (fst (get st name)) = front ++ [(name, m)].
Proof.
  intros Hhit. rewrite (get_model_hit st name m Hhit). cbn [fst snd].
  repeat split.
  - intros k. apply move_to_end_get.
  - destruct (move_to_end_last name (models_of st) m Hhit) as [front [H _]].
    exists front. exact H.
Qed.

(** X19. Lines 85-151, get_model: a cache that holds at most
    MAX_MODELS_IN_MEMORY models still does after a call, with any name and
    any outcome. *)
Theorem get_model_respects_capacity
    (st : state Args Output World) (name : string) :
  (length (models_of st) <= MAX_MODELS_IN_MEMORY)%nat ->
  (length (models_of (fst (get st name))) <= MAX_MODELS_IN_MEMORY)%nat.
Proof.
  intros Hcap.
  destruct (dict_get name (models_of st)) as [m|] eqn:E.
  - rewrite (get_model_hit st name m E). cbn [fst].
    destruct (move_to_end_last name (models_of st) m E) as [_ [_ H]].
    cbn [loaded_models]. lia.
  - destruct (get_model_miss_cases st name E)
      as [(w & m & H & _)|(w & e & H)]; rewrite H; cbn; unfold MAX_MODELS_IN_MEMORY; lia.
Qed.






(** X25. Lines 35-61, _patch_generate_min_tokens: the patched generate
    calls the original one with min_new_tokens set to the larger of the
    caller's value and the minimum (the minimum itself when the caller
    gave none), and with every other argument unchanged; the mode of the
    model is kept. *)
Theorem patch_enforces_minimum
    (m : model) (g : generation_model Args Output)
    (orig : call Args -> Output) (min_new : Z) :
  inner Args Output m = Some g ->
  generate Args Output g = Some orig ->
  exists f,
    patch m min_new =
    mkTtsModel Args Output
      (Some (mkGenerationModel Args Output (training Args Output g) (Some f))) /\
    forall c,
      f c = orig (mkCall Args (Some (enforced min_new c)) (other_args Args c)).
Proof.
  intros Hg Horig. unfold _patch_generate_min_tokens. rewrite Hg, Horig.
  eexists. split; [reflexivity|].
  intros c. apply patched_generate_enforces.
Qed.

(** X26. Lines 35-61, _patch_generate_min_tokens: patching a model
    twice enforces the larger of the two minima, whichever patch came
    first. *)
Theorem patches_compose_to_maximum
    (m : model) (g : generation_model Args Output)
    (orig : call Args -> Output) (a b : Z) :
  inner Args Output m = Some g ->
  generate Args Output g = Some orig ->
  exists f,
    patch (patch m a) b =
    mkTtsModel Args Output
      (Some (mkGenerationModel Args Output (training Args Output g) (Some f))) /\
    forall c,
      f c = orig (mkCall Args (Some (enforced (Z.max a b) c)) (other_args Args c)).
Proof.
  intros Hg Horig. unfold _patch_generate_min_tokens.
  rewrite Hg, Horig. cbn [inner generate training].
  eexists. split; [reflexivity|].
  intros c. rewrite !patched_generate_enforces. cbn [min_new_tokens other_args].
  do 3 f_equal. destruct (min_new_tokens Args c); lia.
Qed.

End LoaderFacts.

Section LoaderWitnesses.

Import Loader LoaderExample.


Lemma get_model_hit_returns_cached_witness :
  dict_get "1.7B-Base" (loaded_models _ _ _ busy) = Some served /\
  snd (get busy "1.7B-Base") = Ok served /\
  world _ _ _ (fst (get busy "1.7B-Base")) = disk.
Proof.
  split; [reflexivity|].
  pose proof (get_model_hit_returns_cached unit (option Z) files 60 import_ok
                path_in copy_file no_device no_device float32_only message
                busy "1.7B-Base" served eq_refl) as [H1 [H2 _]].
  split; [exact H1|exact H2].
Defined.

Lemma get_model_respects_capacity_witness :
  (length (loaded_models _ _ _ busy) <= MAX_MODELS_IN_MEMORY)%nat /\
  (length (loaded_models _ _ _ (fst (get busy "0.6B-Base")))
   <= MAX_MODELS_IN_MEMORY)%nat.
Proof.
  split; [apply le_n|].
  apply (get_model_respects_capacity unit (option Z) files 60 import_ok
           path_in copy_file no_device no_device float32_only message
           busy "0.6B-Base").
  apply le_n.
Defined.






Lemma patch_enforces_minimum_witness :
  exists f,
    _patch_generate_min_tokens unit (option Z) checkpoint 60 =
    mkTtsModel _ _ (Some (mkGenerationModel _ _ true (Some f))) /\
    f (mkCall unit (Some 10%Z) tt) = Some 60%Z /\
    f (mkCall unit (Some 100%Z) tt) = Some 100%Z /\
    f (mkCall unit None tt) = Some 60%Z.
Proof.
  destruct (patch_enforces_minimum unit (option Z) checkpoint
              (mkGenerationModel _ _ true (Some report)) report 60
              eq_refl eq_refl) as [f [Hf Hcall]].
  exists f. split; [exact Hf|].
  repeat split; rewrite Hcall; reflexivity.
Defined.

Lemma patches_compose_to_maximum_witness :
  exists f,
    _patch_generate_min_tokens unit (option Z)
      (_patch_generate_min_tokens unit (option Z) checkpoint 80) 60 =
    mkTtsModel _ _ (Some (mkGenerationModel _ _ true (Some f))) /\
    f (mkCall unit (Some 10%Z) tt) = Some 80%Z /\
    f (mkCall unit None tt) = Some 80%Z.
Proof.
  destruct (patches_compose_to_maximum unit (option Z) checkpoint
              (mkGenerationModel _ _ true (Some report)) report 80 60
              eq_refl eq_refl) as [f [Hf Hcall]].
  exists f. split; [exact Hf|].
  repeat split; rewrite Hcall; reflexivity.
Defined.

End LoaderWitnesses.

(** ** Fusing copies of one embedding *)

Lemma scale_add (a b : R) (u : Torch.tensor) :
  Torch.add (Torch.scale a u) (Torch.scale b u) = Torch.scale (a + b) u.
Proof.
  unfold Torch.add, Torch.scale. cbn [Torch.values Torch.dev]. f_equal.
  induction (Torch.values u) as [|x xs IH]; [reflexivity|].
  cbn [map combine fst snd]. rewrite IH. f_equal. lra.
Qed.

Lemma scale_one (u : Torch.tensor) : Torch.scale 1 u = u.
Proof.
  destruct u as [xs d]. unfold Torch.scale. cbn [Torch.values Torch.dev]. f_equal.
  induction xs as [|x xs IH]; [reflexivity|].
  cbn [map]. rewrite IH. f_equal. lra.
Qed.

Lemma zeros_like_scale (u : Torch.tensor) : Torch.zeros_like u = Torch.scale 0 u.
Proof.
  unfold Torch.zeros_like, Torch.scale. f_equal.
  apply map_ext. intros x. lra.
Qed.

Lemma weighted_sum_copies (u : Torch.tensor) (ws : list R) (c : R) :
  weighted_sum (repeat u (length ws)) ws (Torch.scale c u)
  = Torch.scale (c + py_sum ws) u.
Proof.
  revert c. induction ws as [|w ws IH]; intros c.
  - cbn. f_equal. unfold py_sum. simpl. lra.
  - unfold weighted_sum in *. cbn [length repeat combine fold_left fst snd].
    rewrite scale_add, IH, py_sum_cons. f_equal. lra.
Qed.

Lemma normalize_unit_fixed (u : Torch.tensor) :
  Torch.norm (Torch.values u) = 1 -> Torch.normalize u = u.
Proof.
  intros H. destruct u as [xs d]. unfold Torch.normalize.
  cbn [Torch.values Torch.dev] in *. rewrite H. f_equal.
  pose proof eps_pos as He. unfold Torch.eps in *.
  rewrite Rmax_left by lra.
  rewrite <- (map_id xs) at 2. apply map_ext. intros x. lra.
Qed.

Lemma filter_copies {B : Type} (p : Torch.tensor -> bool) (u : Torch.tensor)
    (ws : list B) :
  filter (fun q => p (fst q)) (combine (repeat u (length ws)) ws) =
  if p u then combine (repeat u (length ws)) ws else [].
Proof.
  induction ws as [|w ws IH]; [now destruct (p u)|].
  cbn [length repeat combine filter fst]. rewrite IH. now destruct (p u).
Qed.

Lemma combine_copies_split {B : Type} (u : Torch.tensor) (ws : list B) :
  map fst (combine (repeat u (length ws)) ws) = repeat u (length ws) /\
  map snd (combine (repeat u (length ws)) ws) = ws.
Proof.
  induction ws as [|w ws [IH1 IH2]]; [now split|].
  cbn [length repeat combine map fst snd]. now rewrite IH1, IH2.
Qed.

Lemma fuse_copies (u : Torch.tensor) (ws : list R) :
  ws <> [] -> Forall (fun w => 0 < w) ws ->
  Torch.norm (Torch.values u) = 1 ->
  fuse_valid (repeat u (length ws)) ws = Ok u.
Proof.
  intros Hne Hpos Hunit.
  pose proof (py_sum_pos ws Hne Hpos) as Hsum.
  destruct ws as [|w ws']; [contradiction|].
  set (ws := w :: ws') in *.
  rewrite (fuse_valid_ok _ ws u (repeat u (length ws'))) by (reflexivity || lra).
  rewrite zeros_like_scale.
  rewrite <- (length_map (fun w => w / py_sum ws) ws) at 1.
  rewrite weighted_sum_copies.
  rewrite (py_sum_map_div (fun w => w)), map_id.
  replace (0 + py_sum ws / py_sum ws) with 1 by (field; lra).
  now rewrite scale_one, normalize_unit_fixed.
Qed.

Lemma to_own_device (e : Torch.tensor) : Torch.to e (Some (Torch.dev e)) = e.
Proof. now destruct e. Qed.

(** X27. Lines 154-236, combine_speaker_embeddings: two or more copies of
    one embedding whose norm is at least the eps of F.normalize, with one
    positive weight each (or the default weights), fuse to what the single
    embedding gives: its normalization.  The threshold plays no part. *)
Theorem copies_fuse_to_the_single_result
    (e : Torch.tensor) (n : nat) (weights : option (list R)) (thr : R)
    (device : option Torch.device) :
  (2 <= n)%nat ->
  Torch.eps <= Torch.norm (Torch.values e) ->
  (forall ws, weights = Some ws ->
              length ws = n /\ Forall (fun w => 0 < w) ws) ->
  combine_speaker_embeddings (repeat e n) weights thr device =
  combine_speaker_embeddings [e] None thr device.
Proof.
  intros Hn Heps Hws.
  destruct n as [|[|k]]; [lia|lia|]. cbn [repeat].
  rewrite combine_speaker_embeddings_many.
  2:{ intros t t' Ht Ht'.
      change (e :: e :: repeat e k) with (repeat e (S (S k))) in Ht, Ht'.
      apply repeat_spec in Ht, Ht'. now subst. }
  cbv zeta.
  set (d := target_device device e).
  set (u := Torch.normalize (Torch.float (Torch.to e (Some d)))).
  assert (Hnormed : normed_embeddings d (e :: e :: repeat e k) = repeat u (S (S k))).
  { unfold normed_embeddings.
    change (e :: e :: repeat e k) with (repeat e (S (S k))).
    now rewrite map_repeat. }
  rewrite Hnormed, repeat_length.
  set (ws := weights_or_default weights (S (S k))).
  assert (Hlen : length ws = S (S k)).
  { unfold ws, weights_or_default. destruct weights as [l|].
    - now destruct (Hws l eq_refl).
    - apply repeat_length. }
  assert (Hpos : Forall (fun w => 0 < w) ws).
  { unfold ws, weights_or_default. destruct weights as [l|].
    - now destruct (Hws l eq_refl).
    - apply Forall_forall. intros w Hw. apply repeat_spec in Hw. lra. }
  assert (Hne : ws <> []) by (intros E; now rewrite E in Hlen).
  assert (Hunit : Torch.norm (Torch.values u) = 1).
  { apply norm_normalize_unit. exact Heps. }
  assert (Hfuse : fuse_valid (repeat u (S (S k))) ws = Ok u).
  { rewrite <- Hlen. now apply fuse_copies. }
  assert (Hu : Ok u = combine_speaker_embeddings [e] None thr device).
  { cbn [combine_speaker_embeddings]. unfold u, d, target_device.
    destruct device as [d'|]; [reflexivity|].
    now rewrite to_own_device. }
  rewrite <- Hu, <- Hlen.
  rewrite (filter_copies
             (fun emb => negb (is_outlier thr
                (Torch.normalize (Torch.mean0 (repeat u (length ws)))) emb))).
  destruct (negb _).
  - destruct (combine_copies_split u ws) as [H1 H2].
    destruct (combine (repeat u (length ws)) ws) as [|p r] eqn:E.
    + now rewrite Hlen.
    + rewrite H1, H2. now rewrite Hlen.
  - now rewrite Hlen.
Qed.

Lemma copies_fuse_to_the_single_result_witness :
  Torch.eps <= Torch.norm (Torch.values far_east) /\
  combine_speaker_embeddings [far_east; far_east; far_east]
    (Some [0.5; 0.25; 0.25]) 0.7 None
  = combine_speaker_embeddings [far_east] None 0.7 None.
Proof.
  assert (H : Torch.eps <= Torch.norm (Torch.values far_east)).
  { unfold far_east, Torch.eps. cbn [Torch.values].
    rewrite norm_singleton, Rabs_pos_eq by lra. lra. }
  split; [exact H|].
  apply (copies_fuse_to_the_single_result far_east 3 (Some [0.5; 0.25; 0.25])
           0.7 None); [lia|exact H|].
  intros ws Hws. injection Hws as <-. split; [reflexivity|].
  constructor; [lra|]. constructor; [lra|]. constructor; [lra|]. constructor.
Defined.
